(** * Midnight MCP gateway: a shallow embedding of the dispatch, session and
      shutdown code, with the properties the specification states about it.

    Embedded sources:
    - [src/tools.ts] and its earlier revision (tool table, [handleToolCall]);
    - the DAO service ([serializeBigInts], [padBytes]);
    - the wallet facing [MCPServer] ([getAddress], [getBalance],
      [sendFunds], [confirmTransactionHasBeenReceived]);
    - the HTTP server (the authentication check at start-up, the [/mcp],
      [/sse] and [/messages] routes and the signal handlers);
    - the configuration loader ([loadConfig]).

    Conventions.  JavaScript values are the inductive [JsVal].  A function
    that can throw returns a [Result]; a function that also talks to a
    collaborator (the wallet HTTP client, the protocol SDK) returns the
    list of calls it made next to its result.  Collaborators that are not
    part of the repository are Section variables or records of functions
    ([Sdk], [WalletManager]).  Logger calls have no
    effect on any value and are left out, except the [log] callback that
    [handleToolCall] receives as an argument and the line the HTTP server
    logs about its key at start-up. *)

From Stdlib Require Import ZArith Ascii String DecimalString DecimalZ Floats.PrimFloat.
From stdpp Require Import gmap strings list fin_maps.

Local Open Scope string_scope.
Local Open Scope list_scope.
Local Open Scope Z_scope.

(** ** JavaScript values *)

Module Js.

(** Plain data as it travels through the gateway: JSON values, [undefined]
    and [bigint].  An object is the list of its own enumerable entries in
    enumeration order. *)
#[local] Unset Elimination Schemes.
Inductive JsVal : Type :=
| VUndefined
| VNull
| VBool (b : bool)
| VNum (x : float)
| VStr (s : string)
| VBigInt (z : Z)
| VArr (items : list JsVal)
| VObj (entries : list (string * JsVal)).
#[local] Set Elimination Schemes.

(** Induction principle that reaches below arrays and objects. *)
Section JsVal_induction.
  Variable P : JsVal → Prop.
  Hypothesis Hundef : P VUndefined.
  Hypothesis Hnull : P VNull.
  Hypothesis Hbool : ∀ b, P (VBool b).
  Hypothesis Hnum : ∀ x, P (VNum x).
  Hypothesis Hstr : ∀ s, P (VStr s).
  Hypothesis Hbig : ∀ z, P (VBigInt z).
  Hypothesis Harr : ∀ items, Forall P items → P (VArr items).
  Hypothesis Hobj : ∀ entries, Forall (λ kv, P kv.2) entries → P (VObj entries).

Fixpoint JsVal_deep_ind (v : JsVal) : P v :=
    match v with
    | VUndefined => Hundef
    | VNull => Hnull
    | VBool b => Hbool b
    | VNum x => Hnum x
    | VStr s => Hstr s
    | VBigInt z => Hbig z
    | VArr items =>
        Harr items
          ((fix go (l : list JsVal) : Forall P l :=
              match l with
              | [] => Forall_nil_2 P
              | x :: l' => Forall_cons_2 P x l' (JsVal_deep_ind x) (go l')
              end) items)
    | VObj entries =>
        Hobj entries
          ((fix go (l : list (string * JsVal)) : Forall (λ kv, P kv.2) l :=
              match l with
              | [] => Forall_nil_2 _
              | kv :: l' =>
                  Forall_cons_2 (λ kv, P kv.2) kv l' (JsVal_deep_ind kv.2) (go l')
              end) entries)
    end.
End JsVal_induction.

(** [!!v] of JavaScript: the falsy values are [undefined], [null], [false],
    [0], [-0], [NaN], [0n] and the empty string. *)
Definition truthy (v : JsVal) : bool :=
  match v with
  | VUndefined | VNull => false
  | VBool b => b
  | VNum x => negb (PrimFloat.eqb x 0%float || PrimFloat.is_nan x)
  | VStr s => negb (String.eqb s "")
  | VBigInt z => negb (z =? 0)
  | VArr _ | VObj _ => true
  end.

Definition falsy (v : JsVal) : bool := negb (truthy v).

(** Own-property lookup in the entry list of an object. *)
Fixpoint obj_get (entries : list (string * JsVal)) (k : string) : option JsVal :=
  match entries with
  | [] => None
  | (k', v) :: rest => if String.eqb k' k then Some v else obj_get rest k
  end.

(** Defining an own property: overwrite the entry when the key is there,
    append it otherwise. *)
Fixpoint obj_set (entries : list (string * JsVal)) (k : string) (v : JsVal)
  : list (string * JsVal) :=
  match entries with
  | [] => [(k, v)]
  | (k', v') :: rest =>
      if String.eqb k' k then (k, v) :: rest else (k', v') :: obj_set rest k v
  end.

Definition keys (entries : list (string * JsVal)) : list string := entries.*1.

(** The property names every plain object inherits from
    [Object.prototype]. *)
Definition Object_prototype : list string :=
  ["constructor"; "__defineGetter__"; "__defineSetter__"; "hasOwnProperty";
   "__lookupGetter__"; "__lookupSetter__"; "isPrototypeOf";
   "propertyIsEnumerable"; "toString"; "valueOf"; "__proto__";
   "toLocaleString"].

Definition inherited (key : string) : bool :=
  existsb (String.eqb key) Object_prototype.

(** What a read [object[key]] of a plain object finds: the own entry when
    there is one, next the member of that name of [Object.prototype] (a
    function, or the prototype itself for ["__proto__"]: truthy values
    without any of the methods the callers go on to use), else
    [undefined]. *)
Inductive Member (A : Type) : Type :=
| Own (a : A)
| Inherited (name : string).
Global Arguments Own {A} a.
Global Arguments Inherited {A} name.

Definition member {A} (own : option A) (key : string) : option (Member A) :=
  match own with
  | Some a => Some (Own a)
  | None => if inherited key then Some (Inherited key) else None
  end.

(** [result[key] = value] on an object made by [{}]: the key
    ["__proto__"] is the accessor of [Object.prototype], so the assignment
    defines no own property (it installs [value] as the prototype when
    that is an object or [null], which no own entry shows); every other
    key is defined or overwritten. *)
Definition assign (entries : list (string * JsVal)) (k : string) (v : JsVal)
  : list (string * JsVal) :=
  if String.eqb k "__proto__" then entries else obj_set entries k v.

(** A string of the model is a sequence of 8-bit characters, a string of
    JavaScript a sequence of UTF-16 units; on the ASCII range the two are
    the same sequence, and [length] and [substring] agree. *)
Definition ascii_only (s : string) : bool :=
  forallb (λ c, (nat_of_ascii c <? 128)%nat) (list_ascii_of_string s).

(** [ErrorCode] of the protocol SDK: the kinds an [McpError] can carry. *)
Inductive ErrorCode : Type :=
| ConnectionClosed | RequestTimeout | ParseError | InvalidRequest
| MethodNotFound | InvalidParams | InternalError.

(** [MCPErrorType] of the wallet API. *)
Inductive MCPErrorType : Type :=
| WALLET_NOT_READY
| INSUFFICIENT_FUNDS
| TX_SUBMISSION_FAILED
| TX_NOT_FOUND
| IDENTIFIER_VERIFICATION_FAILED.

(** What is thrown.  [McpError] is the SDK's error class (code, message
    given to the constructor); [MCPError] is the wallet API's class;
    [TypeError] and [JsError] are instances of [Error]; [Thrown] is a
    thrown value that is not an [Error], kept by its [String(...)]. *)
Inductive Exn : Type :=
| McpError (code : ErrorCode) (message : string)
| MCPError (type : MCPErrorType) (message : string)
| TypeError (message : string)
| JsError (message : string)
| Thrown (rendered : string).

(** The numbers of the SDK's [ErrorCode] enumeration. *)
Definition ErrorCode_number (c : ErrorCode) : Z :=
  match c with
  | ConnectionClosed => -32000
  | RequestTimeout => -32001
  | ParseError => -32700
  | InvalidRequest => -32600
  | MethodNotFound => -32601
  | InvalidParams => -32602
  | InternalError => -32603
  end.

(** [bigint.toString()] and [`${number}`] of an integer: decimal digits,
    a leading minus sign for negative numbers. *)
Definition BigInt_toString (z : Z) : string := NilZero.string_of_int (Z.to_int z).

(** [error instanceof Error ? error.message : String(error)].  The SDK's
    [McpError] constructor calls [super(`MCP error ${code}: ${message}`)]. *)
Definition exn_detail (e : Exn) : string :=
  match e with
  | McpError code m => "MCP error " +:+ BigInt_toString (ErrorCode_number code) +:+ ": " +:+ m
  | MCPError _ m | TypeError m | JsError m => m
  | Thrown s => s
  end.

Inductive Result (A : Type) : Type :=
| Ok (a : A)
| Throw (e : Exn).
Global Arguments Ok {A} a.
Global Arguments Throw {A} e.

(** [c.toLowerCase()] on one character of the ASCII range. *)
Definition lower_ascii (c : ascii) : ascii :=
  let n := nat_of_ascii c in
  if ((65 <=? n) && (n <=? 90))%nat then ascii_of_nat (n + 32) else c.

(** [s.toLowerCase()].  Characters outside ASCII are left as they are; the
    only one whose lower case is an ASCII letter is the Kelvin sign (k),
    a letter none of the words compared against below contains. *)
Fixpoint toLowerCase (s : string) : string :=
  match s with
  | EmptyString => EmptyString
  | String c rest => String (lower_ascii c) (toLowerCase rest)
  end.

(** Reading a decimal numeral back. *)
Definition BigInt_parse (s : string) : option Z := Z.of_int <$> NilZero.int_of_string s.

End Js.

(** ** The DAO service: results made safe for JSON *)

Module DaoService.
Import Js.

(** [serializeBigInts]: the helper every DAO operation runs over the
    contract's answer before returning it. *)
Fixpoint serializeBigInts (obj : JsVal) : JsVal :=
  match obj with
  | VNull | VUndefined => obj
  | VBigInt z => VStr (BigInt_toString z)
  | VArr items => VArr (map serializeBigInts items)
  | VObj entries =>
      VObj (fold_left
              (λ result kv, assign result kv.1 (serializeBigInts kv.2))
              entries [])
  | VBool _ | VNum _ | VStr _ => obj
  end.

(** [DaoOperationResult]. *)
Record DaoOperationResult : Type := {
  success : bool;
  message : option string;
  data : option JsVal;
  error : option string
}.

(** [error instanceof Error ? error.message : 'Unknown error occurred']. *)
Definition dao_error_text (e : Exn) : string :=
  match e with
  | Thrown _ => "Unknown error occurred"
  | _ => exn_detail e
  end.

Definition dao_failure (e : Exn) : DaoOperationResult :=
  {| success := false; message := None; data := None;
     error := Some (dao_error_text e) |}.

Definition dao_success (msg : string) (serializedResult : JsVal) : DaoOperationResult :=
  {| success := true; message := Some msg; data := Some serializedResult;
     error := None |}.

(** The seven operations share one body: fetch the configuration and the
    contract, call the contract, serialize, wrap; any exception on the way
    becomes a failure record.  [config] is [getDaoConfig()] (it throws when
    the configuration is missing), [call] is everything awaited between
    the configuration and the contract's answer. *)
Section Operations.
  Variable DaoConfig : Type.
  Variable contractAddress : DaoConfig → string.

Definition dao_operation (config : Result DaoConfig)
    (call : DaoConfig → Result JsVal) (msg : DaoConfig → string)
  : DaoOperationResult :=
  match config with
  | Throw e => dao_failure e
  | Ok cfg =>
      match call cfg with
      | Throw e => dao_failure e
      | Ok result =>
          let serializedResult := serializeBigInts result in
          dao_success (msg cfg) serializedResult
      end
  end.

Definition openDaoElection config (openElection : string → Result JsVal)
    (electionId : string) : DaoOperationResult :=
  dao_operation config (λ _, openElection electionId)
    (λ _, "Election " +:+ electionId +:+ " opened successfully").

Definition closeDaoElection config (closeElection : Result JsVal) :=
  dao_operation config (λ _, closeElection) (λ _, "Election closed successfully").

Definition castDaoVote config (castVote : string → Result JsVal) (voteType : string) :=
  dao_operation config (λ _, castVote voteType)
    (λ _, "Vote " +:+ voteType +:+ " cast successfully").

Definition fundDaoTreasury config (fundTreasury : string → Result JsVal) (amount : string) :=
  dao_operation config (λ _, fundTreasury amount) (λ _, "Treasury funded successfully").

Definition payoutDaoProposal config (payoutApprovedProposal : Result JsVal) :=
  dao_operation config (λ _, payoutApprovedProposal)
    (λ _, "Proposal paid out successfully").

Definition getDaoElectionStatus config (getElectionStatus : string → Result JsVal) :=
  dao_operation config (λ cfg, getElectionStatus (contractAddress cfg))
    (λ _, "Election status retrieved successfully").

Definition getDaoState config (displayDaoVotingState : Result JsVal) :=
  dao_operation config (λ _, displayDaoVotingState)
    (λ _, "DAO state retrieved successfully").
End Operations.

(** *** What the specification asks of the serialized value *)

(** A leaf that is not a bigint. *)
Definition plain_leaf (v : JsVal) : bool :=
  match v with
  | VUndefined | VNull | VBool _ | VNum _ | VStr _ => true
  | VBigInt _ | VArr _ | VObj _ => false
  end.

(** [same_shape_serialized v w]: [w] has the arrays and objects of [v], with
    the same lengths and the same keys in the same order; where [v] has a
    bigint, [w] has the string of its decimal digits; every other leaf of
    [w] is the leaf of [v]. *)
#[local] Unset Elimination Schemes.
Inductive same_shape_serialized : JsVal → JsVal → Prop :=
| sss_leaf v : plain_leaf v = true → same_shape_serialized v v
| sss_bigint z : same_shape_serialized (VBigInt z) (VStr (BigInt_toString z))
| sss_arr xs ys :
    Forall2 same_shape_serialized xs ys →
    same_shape_serialized (VArr xs) (VArr ys)
| sss_obj es fs :
    Forall2 (λ e f, e.1 = f.1 ∧ same_shape_serialized e.2 f.2) es fs →
    same_shape_serialized (VObj es) (VObj fs).
#[local] Set Elimination Schemes.

(** No bigint is left anywhere in the value. *)
Fixpoint bigint_free (v : JsVal) : bool :=
  match v with
  | VBigInt _ => false
  | VArr items => forallb bigint_free items
  | VObj entries => forallb (λ kv, bigint_free kv.2) entries
  | _ => true
  end.

(** The numbers (binary floating point leaves) of a value, left to right. *)
Fixpoint numbers_of (v : JsVal) : list float :=
  match v with
  | VNum x => [x]
  | VArr items => flat_map numbers_of items
  | VObj entries => flat_map (λ kv, numbers_of kv.2) entries
  | _ => []
  end.

(** An object of JavaScript has each key once: the entry lists of a value
    that stands for one have no repeated key, at any depth. *)
Fixpoint well_formed (v : JsVal) : bool :=
  match v with
  | VArr items => forallb well_formed items
  | VObj entries =>
      bool_decide (NoDup entries.*1) && forallb (λ kv, well_formed kv.2) entries
  | _ => true
  end.

(** The entries a loop of assignments [result[key] = ...] keeps: all but
    one under the key ["__proto__"]. *)
Definition assignable (kv : string * JsVal) : bool :=
  negb (String.eqb kv.1 "__proto__").

(** No object of the value has an own property named ["__proto__"], at
    any depth. *)
Fixpoint plain_keys (v : JsVal) : bool :=
  match v with
  | VArr items => forallb plain_keys items
  | VObj entries =>
      forallb (λ kv, negb (String.eqb kv.1 "__proto__") && plain_keys kv.2) entries
  | _ => true
  end.

(** A contract answer with bigints at several depths. *)
Definition election_answer : JsVal :=
  VObj [("votes", VArr [VBigInt 12345678901234567890; VBigInt (-7)]);
        ("turnout", VNum 0.5%float);
        ("open", VBool true);
        ("tally", VObj [("yes", VBigInt 0); ("label", VStr "q1")])].


(** [padBytes(n, s)]: the UTF-8 bytes of [s], then zero bytes up to length
    [n]; it throws when the bytes do not fit.  [new Uint8Array(n)] is [n]
    zero bytes and [out.set(bytes)] writes [bytes] from index 0 on.  The
    encoder is the platform's [TextEncoder]. *)
Section PadBytes.
  Variable TextEncoder_encode : string → list Byte.byte.

Definition padBytes (n : nat) (s : string) : Result (list Byte.byte) :=
  let bytes := TextEncoder_encode s in
  if (n <? length bytes)%nat then Throw (JsError "String too long for pad length")
  else
    let out := replicate n Byte.x00 in
    Ok (list_inserts 0 bytes out).
End PadBytes.

(** An encoder for strings of the ASCII range: one byte per character. *)
Definition ascii_encode (s : string) : list Byte.byte :=
  Ascii.byte_of_ascii <$> String.list_ascii_of_string s.

End DaoService.

(** ** Tool table and dispatch ([src/tools.ts]) *)

Module Tools.
Import Js.

(** A tool descriptor: name, declared properties, required fields (the
    descriptions are documentation only). *)
Record Tool : Type := {
  name : string;
  properties : list string;
  required : list string
}.

(** The wallet and marketplace tools: the whole table of the earlier
    revision of the file, the first part of the table of [src/tools.ts]. *)
Definition WALLET_TOOLS : list Tool := [
  {| name := "walletStatus"; properties := []; required := [] |};
  {| name := "walletAddress"; properties := []; required := [] |};
  {| name := "walletBalance"; properties := []; required := [] |};
  {| name := "send";
     properties := ["destinationAddress"; "amount"; "token"];
     required := ["destinationAddress"; "amount"] |};
  {| name := "verifyTransaction";
     properties := ["identifier"]; required := ["identifier"] |};
  {| name := "getTransactionStatus";
     properties := ["transactionId"]; required := ["transactionId"] |};
  {| name := "getTransactions"; properties := []; required := [] |};
  {| name := "getWalletConfig"; properties := []; required := [] |};
  {| name := "getTokenBalance";
     properties := ["tokenName"]; required := ["tokenName"] |};
  {| name := "registerInMarketplace";
     properties := ["userId"; "userData"]; required := ["userId"; "userData"] |};
  {| name := "verifyUserInMarketplace";
     properties := ["userId"; "verificationData"];
     required := ["userId"; "verificationData"] |}
].

Definition DAO_TOOLS : list Tool := [
  {| name := "openDaoElection";
     properties := ["contractAddress"; "electionId"];
     required := ["contractAddress"; "electionId"] |};
  {| name := "closeDaoElection";
     properties := ["contractAddress"]; required := ["contractAddress"] |};
  {| name := "castDaoVote";
     properties := ["contractAddress"; "voteType"; "voteCoinNonce";
                    "voteCoinColor"; "voteCoinValue"];
     required := ["contractAddress"; "voteType"; "voteCoinNonce";
                  "voteCoinColor"; "voteCoinValue"] |};
  {| name := "fundDaoTreasury";
     properties := ["contractAddress"; "fundCoinNonce"; "fundCoinColor";
                    "fundCoinValue"];
     required := ["contractAddress"; "fundCoinNonce"; "fundCoinColor";
                  "fundCoinValue"] |};
  {| name := "payoutDaoProposal";
     properties := ["contractAddress"]; required := ["contractAddress"] |};
  {| name := "getDaoElectionStatus";
     properties := ["contractAddress"]; required := ["contractAddress"] |};
  {| name := "getDaoState";
     properties := ["contractAddress"]; required := ["contractAddress"] |}
].

(** [ALL_TOOLS] of [src/tools.ts]. *)
Definition ALL_TOOLS : list Tool := WALLET_TOOLS ++ DAO_TOOLS.

(** A request path: a literal, or a template literal ending in a value. *)
Inductive Url : Type :=
| Path (literal : string)
| PathWith (prefix : string) (v : JsVal).

(** A call on [httpClient], the wallet server's HTTP client. *)
Inductive HttpCall : Type :=
| HttpGet (url : Url)
| HttpPost (url : Url) (body : JsVal).

(** What a dispatch does besides returning: backend calls and calls of the
    [log] callback, in order. *)
Inductive Effect : Type :=
| Backend (call : HttpCall)
| Logged (text : string) (error : Exn).

(** Computations that record their effects and may throw. *)
Definition M (A : Type) : Type := list Effect * Result A.

Definition ret {A} (a : A) : M A := ([], Ok a).
Definition throw {A} (e : Exn) : M A := ([], Throw e).
Definition lift {A} (r : Result A) : M A := ([], r).
Definition bind {A B} (m : M A) (f : A → M B) : M B :=
  match m.2 with
  | Ok a => (m.1 ++ (f a).1, (f a).2)
  | Throw e => (m.1, Throw e)
  end.
Definition try_catch {A} (m : M A) (handler : Exn → M A) : M A :=
  match m.2 with
  | Ok a => m
  | Throw e => (m.1 ++ (handler e).1, (handler e).2)
  end.

#[global] Instance M_ret : MRet M := @ret.
#[global] Instance M_bind : MBind M := λ A B f m, bind m f.

Definition backend_calls {A} (m : M A) : list HttpCall :=
  omap (λ ef, match ef with Backend c => Some c | Logged _ _ => None end) m.1.

(** [obj.k] on an object: the entry, or [undefined]. *)
Definition arg (entries : list (string * JsVal)) (k : string) : JsVal :=
  default VUndefined (obj_get entries k).

(** [const { k } = toolArgs]: reading a property of [undefined] or [null]
    throws (the message is the engine's); a value that is not an object
    has none of the properties the handlers ask for. *)
Definition destructure (toolArgs : JsVal) (k : string) : Result JsVal :=
  match toolArgs with
  | VUndefined =>
      Throw (TypeError ("Cannot destructure property '" +:+ k
                        +:+ "' of 'toolArgs' as it is undefined."))
  | VNull =>
      Throw (TypeError ("Cannot destructure property '" +:+ k
                        +:+ "' of 'toolArgs' as it is null."))
  | VObj entries => Ok (arg entries k)
  | _ => Ok VUndefined
  end.

(** [v.toLowerCase()]: only strings have the method. *)
Definition call_toLowerCase (v : JsVal) : Result string :=
  match v with
  | VStr s => Ok (toLowerCase s)
  | _ => Throw (TypeError "toLowerCase is not a function")
  end.

(** [v.toLowerCase() === 'native' || v.toLowerCase() === 'tdust' ||
    v.toLowerCase() === 'dust']. *)
Definition names_native_token (v : JsVal) : Result bool :=
  match call_toLowerCase v with
  | Ok l => Ok (String.eqb l "native" || String.eqb l "tdust" || String.eqb l "dust")
  | Throw e => Throw e
  end.

(** [!token || token.toLowerCase() === 'native' || ...]. *)
Definition isNativeToken (token : JsVal) : Result bool :=
  if falsy token then Ok true else names_native_token token.

Definition missing {A} (text : string) : M A := throw (McpError InvalidParams text).

Section Dispatch.
  (** The collaborators: the HTTP client of the wallet server, and
      [JSON.stringify(value, null, 2)]. *)
  Variable httpClient : HttpCall → Result JsVal.
  Variable JSON_stringify : JsVal → Result JsVal.

Definition http (c : HttpCall) : M JsVal := ([Backend c], httpClient c).

(** [{ content: [{ type: "text", text: JSON.stringify(x, null, 2),
    mimeType: "application/json" }] }]. *)
Definition content (x : JsVal) : M JsVal :=
  text ← lift (JSON_stringify x);
  ret (VObj [("content",
             VArr [VObj [("type", VStr "text"); ("text", text);
                         ("mimeType", VStr "application/json")]])]).

Definition simple_get (path : string) (toolArgs : JsVal) : M JsVal :=
  r ← http (HttpGet (Path path)) ; content r.

Definition case_send (toolArgs : JsVal) : M JsVal :=
  destinationAddress ← lift (destructure toolArgs "destinationAddress");
  amount ← lift (destructure toolArgs "amount");
  token ← lift (destructure toolArgs "token");
  if falsy destinationAddress || falsy amount then
    missing "Missing required parameters: destinationAddress and amount"
  else
    native ← lift (isNativeToken token);
    if native : bool then
      sendResult ← http (HttpPost (Path "/wallet/send")
                           (VObj [("destinationAddress", destinationAddress);
                                  ("amount", amount)]));
      content sendResult
    else
      sendTokenResult ← http (HttpPost (Path "/wallet/tokens/send")
                                (VObj [("tokenName", token);
                                       ("toAddress", destinationAddress);
                                       ("amount", amount)]));
      content sendTokenResult.

Definition case_verifyTransaction (toolArgs : JsVal) : M JsVal :=
  identifier ← lift (destructure toolArgs "identifier");
  if falsy identifier then missing "Missing required parameter: identifier"
  else
    r ← http (HttpPost (Path "/wallet/verify-transaction")
                (VObj [("identifier", identifier)]));
    content r.

Definition case_getTransactionStatus (toolArgs : JsVal) : M JsVal :=
  transactionId ← lift (destructure toolArgs "transactionId");
  if falsy transactionId then missing "Missing required parameter: transactionId"
  else
    r ← http (HttpGet (PathWith "/wallet/transaction/" transactionId));
    content r.

Definition case_getTokenBalance (toolArgs : JsVal) : M JsVal :=
  balanceTokenName ← lift (destructure toolArgs "tokenName");
  if falsy balanceTokenName then missing "Missing required parameter: tokenName"
  else
    native ← lift (names_native_token balanceTokenName);
    if native : bool then
      r ← http (HttpGet (Path "/wallet/balance")) ; content r
    else
      r ← http (HttpGet (PathWith "/wallet/tokens/balance/" balanceTokenName));
      content r.

Definition case_registerInMarketplace (toolArgs : JsVal) : M JsVal :=
  userId ← lift (destructure toolArgs "userId");
  userData ← lift (destructure toolArgs "userData");
  if falsy userId || falsy userData then
    missing "Missing required parameters: userId and userData"
  else
    r ← http (HttpPost (Path "/marketplace/register")
                (VObj [("userId", userId); ("userData", userData)]));
    content r.

Definition case_verifyUserInMarketplace (toolArgs : JsVal) : M JsVal :=
  verifyUserId ← lift (destructure toolArgs "userId");
  verificationData ← lift (destructure toolArgs "verificationData");
  if falsy verifyUserId || falsy verificationData then
    missing "Missing required parameters: userId and verificationData"
  else
    r ← http (HttpPost (Path "/marketplace/verify")
                (VObj [("userId", verifyUserId);
                       ("verificationData", verificationData)]));
    content r.

Definition case_openDaoElection (toolArgs : JsVal) : M JsVal :=
  openContractAddress ← lift (destructure toolArgs "contractAddress");
  electionId ← lift (destructure toolArgs "electionId");
  if falsy openContractAddress || falsy electionId then
    missing "Missing required parameters: contractAddress and electionId"
  else
    r ← http (HttpPost (Path "/dao/open-election")
                (VObj [("contractAddress", openContractAddress);
                       ("electionId", electionId)]));
    content r.

(** [closeDaoElection] and [payoutDaoProposal]: one required address, one
    POST carrying it. *)
Definition case_contract_post (path : string) (toolArgs : JsVal) : M JsVal :=
  contractAddress ← lift (destructure toolArgs "contractAddress");
  if falsy contractAddress then missing "Missing required parameter: contractAddress"
  else
    r ← http (HttpPost (Path path) (VObj [("contractAddress", contractAddress)]));
    content r.

(** [getDaoElectionStatus] and [getDaoState]: one required address, one GET
    with the address in the path. *)
Definition case_contract_get (prefix : string) (toolArgs : JsVal) : M JsVal :=
  contractAddress ← lift (destructure toolArgs "contractAddress");
  if falsy contractAddress then missing "Missing required parameter: contractAddress"
  else
    r ← http (HttpGet (PathWith prefix contractAddress));
    content r.

Definition case_castDaoVote (toolArgs : JsVal) : M JsVal :=
  voteContractAddress ← lift (destructure toolArgs "contractAddress");
  voteType ← lift (destructure toolArgs "voteType");
  voteCoinNonce ← lift (destructure toolArgs "voteCoinNonce");
  voteCoinColor ← lift (destructure toolArgs "voteCoinColor");
  voteCoinValue ← lift (destructure toolArgs "voteCoinValue");
  if falsy voteContractAddress || falsy voteType || falsy voteCoinNonce
     || falsy voteCoinColor || falsy voteCoinValue then
    missing "Missing required parameters: contractAddress, voteType, voteCoinNonce, voteCoinColor, voteCoinValue"
  else
    r ← http (HttpPost (Path "/dao/cast-vote")
                (VObj [("contractAddress", voteContractAddress);
                       ("voteType", voteType);
                       ("voteCoin", VObj [("nonce", voteCoinNonce);
                                          ("color", voteCoinColor);
                                          ("value", voteCoinValue)])]));
    content r.

Definition case_fundDaoTreasury (toolArgs : JsVal) : M JsVal :=
  fundContractAddress ← lift (destructure toolArgs "contractAddress");
  fundCoinNonce ← lift (destructure toolArgs "fundCoinNonce");
  fundCoinColor ← lift (destructure toolArgs "fundCoinColor");
  fundCoinValue ← lift (destructure toolArgs "fundCoinValue");
  if falsy fundContractAddress || falsy fundCoinNonce || falsy fundCoinColor
     || falsy fundCoinValue then
    missing "Missing required parameters: contractAddress, fundCoinNonce, fundCoinColor, fundCoinValue"
  else
    r ← http (HttpPost (Path "/dao/fund-treasury")
                (VObj [("contractAddress", fundContractAddress);
                       ("fundCoin", VObj [("nonce", fundCoinNonce);
                                          ("color", fundCoinColor);
                                          ("value", fundCoinValue)])]));
    content r.

(** The [case] labels of the [switch], in source order, each with its body.
    The wallet and marketplace cases are those of both revisions. *)
Definition wallet_cases : list (string * (JsVal → M JsVal)) := [
  ("walletStatus", simple_get "/wallet/status");
  ("walletAddress", simple_get "/wallet/address");
  ("walletBalance", simple_get "/wallet/balance");
  ("send", case_send);
  ("verifyTransaction", case_verifyTransaction);
  ("getTransactionStatus", case_getTransactionStatus);
  ("getTransactions", simple_get "/wallet/transactions");
  ("getPendingTransactions", simple_get "/wallet/pending-transactions");
  ("getWalletConfig", simple_get "/wallet/config");
  ("getTokenBalance", case_getTokenBalance);
  ("registerInMarketplace", case_registerInMarketplace);
  ("verifyUserInMarketplace", case_verifyUserInMarketplace)
].

Definition dao_cases : list (string * (JsVal → M JsVal)) := [
  ("openDaoElection", case_openDaoElection);
  ("closeDaoElection", case_contract_post "/dao/close-election");
  ("castDaoVote", case_castDaoVote);
  ("fundDaoTreasury", case_fundDaoTreasury);
  ("payoutDaoProposal", case_contract_post "/dao/payout-proposal");
  ("getDaoElectionStatus", case_contract_get "/dao/election-status/");
  ("getDaoState", case_contract_get "/dao/state/")
].

(** The first case whose label is the tool name. *)
Fixpoint select (cases : list (string * (JsVal → M JsVal))) (toolName : string)
  : option (JsVal → M JsVal) :=
  match cases with
  | [] => None
  | (label, body) :: rest =>
      if String.eqb label toolName then Some body else select rest toolName
  end.

(** [switch (toolName) { ... default: throw ... }] inside
    [try { ... } catch (error) { log(...); throw error; }]. *)
Definition dispatch (cases : list (string * (JsVal → M JsVal)))
    (toolName : string) (toolArgs : JsVal) : M JsVal :=
  try_catch
    (match select cases toolName with
     | Some body => body toolArgs
     | None => throw (McpError InvalidParams ("Unknown tool: " +:+ toolName))
     end)
    (λ error,
       ([Logged ("Error handling tool call for " +:+ toolName +:+ ":") error],
        Throw error)).

(** [handleToolCall] of [src/tools.ts]. *)
Definition handleToolCall : string → JsVal → M JsVal :=
  dispatch (wallet_cases ++ dao_cases).

(** [handleToolCall] of the earlier revision, which has no DAO cases. *)
Definition handleToolCall_earlier : string → JsVal → M JsVal :=
  dispatch wallet_cases.
End Dispatch.

(** The error a dispatch ended with, if it threw. *)
Definition thrown {A} (m : M A) : option Exn :=
  match m.2 with Throw e => Some e | Ok _ => None end.

(** The protocol error code of what was thrown, for an [McpError]. *)
Definition error_code (e : Exn) : option ErrorCode :=
  match e with McpError c _ => Some c | _ => None end.

(** Collaborators that answer every call with [null]; used where a
    statement is evaluated on a concrete call. *)
Definition quiet_client : HttpCall → Result JsVal := λ _, Ok VNull.
Definition quiet_stringify : JsVal → Result JsVal := λ _, Ok (VStr "null").

(** *** The routing rule of [send], in the words of the specification *)

Definition is_upper (c : ascii) : bool :=
  ((65 <=? nat_of_ascii c) && (nat_of_ascii c <=? 90))%nat.
Definition is_lower (c : ascii) : bool :=
  ((97 <=? nat_of_ascii c) && (nat_of_ascii c <=? 122))%nat.

(** Two characters are the same letter when they are equal or one is the
    capital of the other. *)
Definition same_letter (c d : ascii) : bool :=
  Ascii.eqb c d
  || (is_upper c && (nat_of_ascii d =? nat_of_ascii c + 32)%nat)
  || (is_upper d && (nat_of_ascii c =? nat_of_ascii d + 32)%nat).

(** Equality of strings up to the case of their letters. *)
Fixpoint same_ignoring_case (a b : string) : bool :=
  match a, b with
  | EmptyString, EmptyString => true
  | String c a', String d b' => same_letter c d && same_ignoring_case a' b'
  | _, _ => false
  end.

(** The token argument is not given: left out, [null], or empty. *)
Definition token_absent (token : JsVal) : Prop :=
  token = VUndefined ∨ token = VNull ∨ token = VStr "".

(** The token argument names the native token. *)
Definition token_names_native (token : JsVal) : Prop :=
  ∃ s, token = VStr s ∧
    (same_ignoring_case s "native" = true
     ∨ same_ignoring_case s "tdust" = true
     ∨ same_ignoring_case s "dust" = true).

(** The declared type of [token]: an optional string. *)
Definition optional_string (v : JsVal) : Prop :=
  v = VUndefined ∨ v = VNull ∨ ∃ s, v = VStr s.

Definition native_send (destinationAddress amount : JsVal) : HttpCall :=
  HttpPost (Path "/wallet/send")
    (VObj [("destinationAddress", destinationAddress); ("amount", amount)]).

Definition shielded_send (token destinationAddress amount : JsVal) : HttpCall :=
  HttpPost (Path "/wallet/tokens/send")
    (VObj [("tokenName", token); ("toAddress", destinationAddress);
           ("amount", amount)]).

(** The same rule as a test. *)
Definition routes_native (token : JsVal) : bool :=
  match token with
  | VUndefined | VNull => true
  | VStr s =>
      String.eqb s "" || same_ignoring_case s "native"
      || same_ignoring_case s "tdust" || same_ignoring_case s "dust"
  | _ => false
  end.

(** Every character, and words made of small letters only. *)
Definition all_ascii : list ascii := ascii_of_nat <$> seq 0 256.

Fixpoint all_lower (w : string) : bool :=
  match w with
  | EmptyString => true
  | String c w' => is_lower c && all_lower w'
  end.

(** The value a dispatch returns around the text [JSON.stringify] made:
    [{ content: [{ type, text, mimeType }] }]. *)
Definition envelope (text : JsVal) : JsVal :=
  VObj [("content",
         VArr [VObj [("type", VStr "text"); ("text", text);
                     ("mimeType", VStr "application/json")]])].

(** The two shapes a [case] body takes once its arguments are read: it
    throws before touching the backend, or it makes one backend call and
    wraps the answer. *)
Definition single_call (httpClient : HttpCall → Result JsVal)
    (JSON_stringify : JsVal → Result JsVal) (m : M JsVal) : Prop :=
  (∃ e, m = ([], Throw e))
  ∨ (∃ c, m = (r ← http httpClient c; content JSON_stringify r)).

(** The text handed to [log] when a dispatch fails. *)
Definition log_text (toolName : string) : string :=
  "Error handling tool call for " +:+ toolName +:+ ":".

(** No call of [log] is among the effects. *)
Definition log_free (effects : list Effect) : Prop :=
  ∀ text e, Logged text e ∉ effects.

(** A wallet server that refuses every call, and one that answers a
    balance. *)
Definition refusing_client : HttpCall → Result JsVal :=
  λ _, Throw (JsError "connect ECONNREFUSED").
Definition balance_client : HttpCall → Result JsVal :=
  λ _, Ok (VObj [("balance", VStr "1000")]).

(** The word names the native token, whatever the case of its letters. *)
Definition native_word (s : string) : bool :=
  same_ignoring_case s "native" || same_ignoring_case s "tdust"
  || same_ignoring_case s "dust".

End Tools.

(** ** The wallet facing server class ([MCPServer]) *)

Module McpApi.
Import Js.

(** The answer of [wallet.hasReceivedTransactionByIdentifier]. *)
Record TransactionVerificationResult : Type := {
  wallet_exists : bool;
  wallet_syncedIndices : Z;
  wallet_totalIndices : Z;
  wallet_isFullySynced : bool
}.

Record SyncStatus : Type := {
  syncedIndices : Z;
  totalIndices : Z;
  isFullySynced : bool
}.

(** The value [confirmTransactionHasBeenReceived] returns; [tx_exists] is
    its field [exists]. *)
Record Verification : Type := {
  tx_exists : bool;
  syncStatus : SyncStatus
}.

(** The wallet manager as the server sees it at one moment: what
    [isReady(false)] answers, what the verification query answers for an
    identifier, and how [close()] ends. *)
Record WalletManager : Type := {
  wallet_isReady : bool;
  hasReceivedTransactionByIdentifier : string → Result TransactionVerificationResult;
  wallet_close : Result unit
}.

Definition isReady (wallet : WalletManager) : bool := wallet_isReady wallet.

Definition confirmTransactionHasBeenReceived
    (wallet : WalletManager) (identifier : string) : Result Verification :=
  if negb (isReady wallet) then
    Throw (MCPError WALLET_NOT_READY "Wallet is not ready")
  else
    match hasReceivedTransactionByIdentifier wallet identifier with
    | Ok result =>
        Ok {| tx_exists := wallet_exists result;
              syncStatus := {| syncedIndices := wallet_syncedIndices result;
                               totalIndices := wallet_totalIndices result;
                               isFullySynced := wallet_isFullySynced result |} |}
    | Throw error =>
        Throw (MCPError IDENTIFIER_VERIFICATION_FAILED
                 ("Failed to verify transaction with identifier: "
                  +:+ exn_detail error))
    end.

(** [close()]: the wallet is closed; a failure is logged, not thrown. *)
Definition close (wallet : WalletManager) : Result unit :=
  match wallet_close wallet with
  | Ok _ => Ok tt
  | Throw _ => Ok tt
  end.

(** A wallet that knows no transaction and reports the given sync state. *)
Definition wallet_without_tx (synced total : Z) (fully : bool) : WalletManager :=
  {| wallet_isReady := true;
     hasReceivedTransactionByIdentifier := λ _,
       Ok {| wallet_exists := false; wallet_syncedIndices := synced;
             wallet_totalIndices := total; wallet_isFullySynced := fully |};
     wallet_close := Ok tt |}.

(** The answer of [wallet.sendFunds]. *)
Record SendFundsResult : Type := {
  txHash : string;
  sent_syncedIndices : Z;
  sent_totalIndices : Z;
  sent_isFullySynced : bool;
  amountBigInt : Z
}.

(** The other methods of the wallet manager the class calls:
    [getAddress()], [getBalance()] and [sendFunds(destination, amount)]. *)
Record WalletOperations : Type := {
  wallet_getAddress : Result string;
  wallet_getBalance : Result Z;
  wallet_sendFunds : string → string → Result SendFundsResult
}.

(** What [sendFunds] returns: [{ txHash, syncStatus }]. *)
Record Submission : Type := {
  submitted_txHash : string;
  submitted_syncStatus : SyncStatus
}.

Definition getAddress (ops : WalletOperations) : Result string :=
  match wallet_getAddress ops with
  | Ok address => Ok address
  | Throw _ => Throw (MCPError WALLET_NOT_READY "Error accessing wallet address")
  end.

Definition getBalance (wallet : WalletManager) (ops : WalletOperations) : Result Z :=
  if negb (isReady wallet) then
    Throw (MCPError WALLET_NOT_READY "Wallet is not ready")
  else
    match wallet_getBalance ops with
    | Ok balance => Ok balance
    | Throw _ => Throw (MCPError WALLET_NOT_READY "Error accessing wallet balance")
    end.

Definition sendFunds (wallet : WalletManager) (ops : WalletOperations)
    (destinationAddress amount : string) : Result Submission :=
  if negb (isReady wallet) then
    Throw (MCPError WALLET_NOT_READY "Wallet is not ready")
  else
    match wallet_sendFunds ops destinationAddress amount with
    | Ok result =>
        Ok {| submitted_txHash := txHash result;
              submitted_syncStatus :=
                {| syncedIndices := sent_syncedIndices result;
                   totalIndices := sent_totalIndices result;
                   isFullySynced := sent_isFullySynced result |} |}
    | Throw _ => Throw (MCPError TX_SUBMISSION_FAILED "Failed to submit transaction")
    end.

(** The type of an [MCPError]. *)
Definition error_type (e : Exn) : option MCPErrorType :=
  match e with MCPError t _ => Some t | _ => None end.

(** Wallet operations that all fail with the same text. *)
Definition broken_operations (text : string) : WalletOperations :=
  {| wallet_getAddress := Throw (JsError text);
     wallet_getBalance := Throw (JsError text);
     wallet_sendFunds := λ _ _, Throw (JsError text) |}.

End McpApi.

(** ** The HTTP gateway: session registries, routes and shutdown *)

Module Gateway.
Import Js.

(** A transport object of the SDK, by identity. *)
Definition Handle : Type := nat.

(** [transports]: the two registries, session id to transport, and the
    number of transport objects constructed so far (the identity of the
    next one).  Each registry is a plain object: the maps hold its own
    entries, written under the session ids the SDK generates, and a read
    [registry[key]] that finds no own entry goes on to [Object.prototype]
    (see [member]). *)
Record Transports : Type := {
  streamable : gmap string Handle;
  sse : gmap string Handle;
  allocated : nat
}.

(** [shouldCheckAuth] and [API_KEY], read from the environment at start. *)
Record Config : Type := {
  shouldCheckAuth : bool;
  API_KEY : option string
}.

(** What the routes read of a request. *)
Record Request : Type := {
  method : string;
  headers : gmap string string;
  query_sessionId : option string;
  body : JsVal
}.

(** What the routes themselves write: a JSON-RPC error object
    [{ jsonrpc, error: { code, message, data? }, id }] or a line of text. *)
Inductive Payload : Type :=
| JsonRpcError (code : Z) (message : string) (data : option string) (id : JsVal)
| Text (line : string).

Record Response : Type := {
  status : nat;
  payload : Payload
}.

(** The two callbacks the [/mcp] route installs on a transport it creates:
    [onsessioninitialized(newSessionId)] and [onclose] (with the
    transport's [sessionId] at that moment). *)
Inductive Callback : Type :=
| SessionInitialized (newSessionId : string)
| Closed (sessionId : option string).

(** How a call into the SDK went: the callbacks it invoked, what it threw
    if it threw, and whether the response headers were sent by then. *)
Record Reply : Type := {
  callbacks : list Callback;
  failure : option Exn;
  headersSent : bool
}.

(** The SDK as the gateway uses it. *)
Record Sdk : Type := {
  isInitializeRequest : JsVal → bool;
  connect : Handle → Reply;
  handleRequest : Handle → Request → Reply;
  sse_sessionId : Handle → string;
  handlePostMessage : Handle → Request → Reply;
  transport_close : Handle → option Exn
}.

(** Calls that leave the gateway, in order; [ResWrite] is a chunk the
    route itself writes to an open response with [res.write]. *)
Inductive Event : Type :=
| NewStreamable (h : Handle)
| NewSse (h : Handle)
| Connect (h : Handle)
| HandleRequest (h : Handle)
| HandlePostMessage (h : Handle)
| ResWrite (chunk : string)
| Close (h : Handle)
| CloseBackend
| Exit (code : Z).

(** The result of running a route or a signal handler: the registries
    afterwards, the calls made, and the answer (status and body) the
    gateway code sent itself, if it sent one ([None]: the SDK's transport
    answered, or no answer was sent). *)
Record Outcome : Type := {
  state : Transports;
  events : list Event;
  response : option Response
}.

Definition nonempty (s : option string) : bool :=
  match s with
  | Some s => negb (String.eqb s "")
  | None => false
  end.

(** [req.headers['Authorization'] || req.headers['authorization']]. *)
Definition authHeader (req : Request) : option string :=
  if nonempty (headers req !! "Authorization") then headers req !! "Authorization"
  else headers req !! "authorization".

(** [`Bearer ${API_KEY}`]. *)
Definition bearer (cfg : Config) : string :=
  "Bearer " +:+ default "undefined" (API_KEY cfg).

(** [shouldCheckAuth && authHeader !== `Bearer ${API_KEY}`]. *)
Definition unauthorized (cfg : Config) (req : Request) : bool :=
  shouldCheckAuth cfg && negb (bool_decide (authHeader req = Some (bearer cfg))).

(** [req.headers['mcp-session-id']]. *)
Definition sessionId (req : Request) : option string :=
  headers req !! "mcp-session-id".

(** [sessionId && transports.streamable[sessionId]]: what the read finds
    for a request that carries a session id. *)
Definition stream_member (st : Transports) (req : Request) : option (Member Handle) :=
  if nonempty (sessionId req)
  then member (streamable st !! default "" (sessionId req)) (default "" (sessionId req))
  else None.

(** The transport registered under the session id of the request. *)
Definition existing_stream (st : Transports) (req : Request) : option Handle :=
  if nonempty (sessionId req) then streamable st !! default "" (sessionId req)
  else None.

Definition with_streamable (st : Transports) (m : gmap string Handle) : Transports :=
  {| streamable := m; sse := sse st; allocated := allocated st |}.

Definition with_sse (st : Transports) (m : gmap string Handle) : Transports :=
  {| streamable := streamable st; sse := m; allocated := allocated st |}.

(** The bodies of the two callbacks of the [/mcp] route, for transport [h]. *)
Definition run_callback (h : Handle) (st : Transports) (cb : Callback) : Transports :=
  match cb with
  | SessionInitialized newSessionId =>
      with_streamable st (<[newSessionId := h]> (streamable st))
  | Closed sid =>
      if nonempty sid then with_streamable st (delete (default "" sid) (streamable st))
      else st
  end.

Definition run_callbacks (h : Handle) (st : Transports) (cbs : list Callback)
  : Transports := foldl (run_callback h) st cbs.

Definition unauthorized_response : Response :=
  {| status := 401; payload := JsonRpcError (-32000) "Unauthorized" None VNull |}.

Definition invalid_session_response : Response :=
  {| status := 400; payload := Text "Invalid or missing session ID" |}.

Definition no_session_response : Response :=
  {| status := 400;
     payload := JsonRpcError (-32000) "Bad Request: No valid session ID provided"
                  None VNull |}.

Definition internal_error_response : Response :=
  {| status := 500; payload := JsonRpcError (-32603) "Internal server error" None VNull |}.

(** [if (!res.headersSent) res.status(...)...] in a [catch]. *)
Definition unless_sent (sent : bool) (r : Response) : option Response :=
  if sent then None else Some r.

(** Calling a method on a value that does not have it: a [TypeError] is
    thrown before anything is done (the message is the engine's). *)
Definition not_a_function (callee : string) : Reply :=
  {| callbacks := [];
     failure := Some (TypeError (callee +:+ " is not a function"));
     headersSent := false |}.

(** [await transport.handleRequest(req, res, ...)] on what the registry
    read gave: the registries after the callbacks, the call made, and how
    it went. *)
Definition call_handleRequest (sdk : Sdk) (st : Transports) (req : Request)
    (transport : Member Handle) : Transports * list Event * Reply :=
  match transport with
  | Own h =>
      let reply := handleRequest sdk h req in
      (run_callbacks h st (callbacks reply), [HandleRequest h], reply)
  | Inherited _ => (st, [], not_a_function "transport.handleRequest")
  end.

(** [await transport.handleRequest(req, res)] for [GET] and [DELETE], in
    its own [try]. *)
Definition session_request (sdk : Sdk) (st : Transports) (req : Request)
    (transport : Member Handle) : Outcome :=
  let '(st', calls, reply) := call_handleRequest sdk st req transport in
  {| state := st';
     events := calls;
     response :=
       match failure reply with
       | Some _ =>
           unless_sent (headersSent reply)
             {| status := 500;
                payload := Text ("Error processing " +:+ method req +:+ " request") |}
       | None => None
       end |}.

(** [req.body.params?._meta?.progressToken]: reading [params] of a body
    that is [undefined] or [null] throws; nothing else comes of it. *)
Definition read_progressToken (b : JsVal) : Result unit :=
  match b with
  | VUndefined | VNull => Throw (TypeError "Cannot read properties of undefined")
  | _ => Ok tt
  end.

(** The tail of the [POST] path, once [transport] is bound; [before] are
    the calls made so far and [sent] tells whether the response headers
    were sent by then.  Whatever throws ends in the outer [catch]. *)
Definition process_request (sdk : Sdk) (st : Transports) (req : Request)
    (transport : Member Handle) (before : list Event) (sent : bool) : Outcome :=
  match read_progressToken (body req) with
  | Throw _ =>
      {| state := st; events := before;
         response := unless_sent sent internal_error_response |}
  | Ok _ =>
      let '(st', calls, reply) := call_handleRequest sdk st req transport in
      {| state := st';
         events := before ++ calls;
         response :=
           match failure reply with
           | Some _ => unless_sent (headersSent reply) internal_error_response
           | None => None
           end |}
  end.

(** [app.all('/mcp', ...)]. *)
Definition mcp_handler (cfg : Config) (sdk : Sdk) (st : Transports) (req : Request)
  : Outcome :=
  if unauthorized cfg req then
    {| state := st; events := []; response := Some unauthorized_response |}
  else if String.eqb (method req) "GET" || String.eqb (method req) "DELETE" then
    match stream_member st req with
    | None =>
        {| state := st; events := []; response := Some invalid_session_response |}
    | Some transport => session_request sdk st req transport
    end
  else
    match stream_member st req with
    | Some transport => process_request sdk st req transport [] false
    | None =>
        if negb (nonempty (sessionId req)) && isInitializeRequest sdk (body req) then
          let h := allocated st in
          let st1 := {| streamable := streamable st; sse := sse st;
                        allocated := S (allocated st) |} in
          let connected := connect sdk h in
          match failure connected with
          | Some _ =>
              {| state := st1; events := [NewStreamable h; Connect h];
                 response := unless_sent (headersSent connected)
                               internal_error_response |}
          | None =>
              process_request sdk st1 req (Own h) [NewStreamable h; Connect h]
                (headersSent connected)
          end
        else
          {| state := st; events := []; response := Some no_session_response |}
    end.

(** [res.on('close', ...)] of the push channel of session [sid]. *)
Definition sse_closed (st : Transports) (sid : string) : Transports :=
  with_sse st (delete sid (sse st)).

(** The line feed, and the comment the [/sse] route writes on the open
    channel once it is connected: [':connected\n\n']. *)
Definition LF : string := String (ascii_of_nat 10) EmptyString.
Definition connected_comment : string := ":connected" +:+ LF +:+ LF.
Definition ping_comment : string := ":ping" +:+ LF +:+ LF.

(** [app.get('/sse', ...)]: the push channel is opened, its transport
    registered under the session id the SDK gave it, then connected.
    When the connection is made the route writes its comment on the
    channel.  When it fails the route sends nothing if the headers are
    out; otherwise it sends its own 500, which ends the response, and the
    ['close'] handler installed before then takes the session out of the
    registry again. *)
Definition sse_handler (sdk : Sdk) (st : Transports) (req : Request) : Outcome :=
  let h := allocated st in
  let st1 := {| streamable := streamable st;
                sse := <[sse_sessionId sdk h := h]> (sse st);
                allocated := S (allocated st) |} in
  let connected := connect sdk h in
  match failure connected with
  | None =>
      {| state := st1;
         events := [NewSse h; Connect h; ResWrite connected_comment];
         response := None |}
  | Some _ =>
      if headersSent connected then
        {| state := st1; events := [NewSse h; Connect h]; response := None |}
      else
        {| state := sse_closed st1 (sse_sessionId sdk h);
           events := [NewSse h; Connect h];
           response :=
             Some {| status := 500;
                     payload := Text "Error establishing SSE connection" |} |}
  end.

(** The callback of the timer the [/sse] route starts under [DEBUG_SSE]
    once the channel is connected; it runs every 30 seconds, after the
    route has returned: nothing when the response has ended, a ping
    comment otherwise. *)
Definition sse_ping (writableEnded : bool) : list Event :=
  if writableEnded then [] else [ResWrite ping_comment].

(** [req.body?.id || null]. *)
Definition id_or_null (b : JsVal) : JsVal :=
  match b with
  | VObj entries =>
      match obj_get entries "id" with
      | Some v => if truthy v then v else VNull
      | None => VNull
      end
  | _ => VNull
  end.

(** The property key and the text [req.query.sessionId] stands for. *)
Definition session_key (req : Request) : string :=
  default "undefined" (query_sessionId req).

(** [await transport.handlePostMessage(req, res)] on what the registry
    read gave. *)
Definition call_handlePostMessage (sdk : Sdk) (req : Request)
    (transport : Member Handle) : list Event * Reply :=
  match transport with
  | Own h => ([HandlePostMessage h], handlePostMessage sdk h req)
  | Inherited _ => ([], not_a_function "transport.handlePostMessage")
  end.

(** [app.post('/messages', ...)]. *)
Definition messages_handler (sdk : Sdk) (st : Transports) (req : Request) : Outcome :=
  match member (sse st !! session_key req) (session_key req) with
  | Some transport =>
      let '(calls, reply) := call_handlePostMessage sdk req transport in
      {| state := st;
         events := calls;
         response :=
           match failure reply with
           | Some error =>
               unless_sent (headersSent reply)
                 {| status := 500;
                    payload := JsonRpcError (-32603) "Error processing message"
                                 (Some (exn_detail error)) (id_or_null (body req)) |}
           | None => None
           end |}
  | None =>
      {| state := st;
         events := [];
         response :=
           Some {| status := 400;
                   payload := JsonRpcError (-32000)
                                ("No transport found for sessionId "
                                 +:+ session_key req)
                                None (id_or_null (body req)) |} |}
  end.

(** One [for (const sessionId in registry)] loop of the signal handlers:
    each key still in the registry has its transport closed and, when the
    close did not throw, is deleted; a throw is caught and logged. *)
Fixpoint close_each (sdk : Sdk) (sessionIds : list string)
    (registry : gmap string Handle) : gmap string Handle * list Event :=
  match sessionIds with
  | [] => (registry, [])
  | sessionId :: rest =>
      match registry !! sessionId with
      | None => close_each sdk rest registry
      | Some h =>
          let registry' :=
            match transport_close sdk h with
            | None => delete sessionId registry
            | Some _ => registry
            end in
          let '(final, later) := close_each sdk rest registry' in
          (final, Close h :: later)
      end
  end.

(** The [SIGINT] handler, which is also the [SIGTERM] handler: both
    registries are walked, then the wallet server is closed, then the
    process exits. *)
Definition shutdown (sdk : Sdk) (midnightServer : McpApi.WalletManager)
    (st : Transports) : Outcome :=
  let '(sse', closed_sse) := close_each sdk (map_to_list (sse st)).*1 (sse st) in
  let '(streamable', closed_streamable) :=
    close_each sdk (map_to_list (streamable st)).*1 (streamable st) in
  {| state := {| streamable := streamable'; sse := sse';
                 allocated := allocated st |};
     events := closed_sse ++ closed_streamable ++
               match McpApi.close midnightServer with
               | Ok _ => [CloseBackend; Exit 0]
               | Throw _ => [CloseBackend]
               end;
     response := None |}.

(** *** Sample collaborators and requests *)

Definition no_reply : Reply :=
  {| callbacks := []; failure := None; headersSent := true |}.

(** A body whose [method] is ["initialize"]. *)
Definition names_initialize (b : JsVal) : bool :=
  match b with
  | VObj entries =>
      match obj_get entries "method" with
      | Some (VStr m) => String.eqb m "initialize"
      | _ => false
      end
  | _ => false
  end.

(** An SDK whose calls all succeed: a body is an initialization request
    when its [method] is ["initialize"]; handling such a request on a
    transport reports the session initialized; push channels get the
    session id ["sse-1"]. *)
Definition plain_sdk : Sdk :=
  {| isInitializeRequest := names_initialize;
     connect := λ _, no_reply;
     handleRequest := λ _ req,
       if names_initialize (body req)
       then {| callbacks := [SessionInitialized "stream-1"]; failure := None;
               headersSent := true |}
       else no_reply;
     sse_sessionId := λ _, "sse-1";
     handlePostMessage := λ _ _, no_reply;
     transport_close := λ _, None |}.

(** The same SDK, except that handling a posted message throws [error]
    before anything was written. *)
Definition failing_sdk (error : Exn) : Sdk :=
  {| isInitializeRequest := isInitializeRequest plain_sdk;
     connect := connect plain_sdk;
     handleRequest := handleRequest plain_sdk;
     sse_sessionId := sse_sessionId plain_sdk;
     handlePostMessage := λ _ _,
       {| callbacks := []; failure := Some error; headersSent := false |};
     transport_close := transport_close plain_sdk |}.

Definition no_sessions : Transports :=
  {| streamable := ∅; sse := ∅; allocated := 0 |}.

(** Authentication switched on, with a key. *)
Definition secured : Config := {| shouldCheckAuth := true; API_KEY := Some "s3cret" |}.

(** A request without any header. *)
Definition anonymous (verb : string) (sid : option string) (b : JsVal) : Request :=
  {| method := verb; headers := ∅; query_sessionId := sid; body := b |}.

Definition initialize_body : JsVal :=
  VObj [("jsonrpc", VStr "2.0"); ("id", VStr "init-1"); ("method", VStr "initialize")].

Definition tool_call_body : JsVal :=
  VObj [("jsonrpc", VStr "2.0"); ("id", VStr "call-1"); ("method", VStr "tools/call")].

(** *** What the specification speaks of *)

(** The route constructed a new stream transport. *)
Definition creates_session (out : Outcome) : bool :=
  existsb (λ ev, match ev with NewStreamable _ => true | _ => false end) (events out).

(** The gateway answered with a client error and did nothing else. *)
Definition rejected (st : Transports) (out : Outcome) : Prop :=
  state out = st ∧ events out = []
  ∧ ∃ r, response out = Some r ∧ (400 ≤ status r < 500)%nat.

(** The gateway answered with an error response, of the client or of the
    server kind, and did nothing else. *)
Definition turned_away (st : Transports) (out : Outcome) : Prop :=
  state out = st ∧ events out = []
  ∧ ∃ r, response out = Some r ∧ (400 ≤ status r)%nat.


(** The [id] member of an error response. *)
Definition response_id (r : Response) : option JsVal :=
  match payload r with
  | JsonRpcError _ _ _ id => Some id
  | Text _ => None
  end.

(** The [data] member of an error response. *)
Definition response_data (r : Response) : option string :=
  match payload r with
  | JsonRpcError _ _ data _ => data
  | Text _ => None
  end.

(** What one loop leaves of a registry entry: gone when its transport
    closed, kept when the close threw. *)
Definition after_close (sdk : Sdk) (entry : option Handle) : option Handle :=
  match entry with
  | Some h => match transport_close sdk h with None => None | Some _ => Some h end
  | None => None
  end.

(** Three sessions, the first of which fails to close: the other two are
    closed and removed, the failing one is attempted and stays, and the
    wallet server is closed before the exit. *)
Definition stubborn_sdk : Sdk :=
  {| isInitializeRequest := isInitializeRequest plain_sdk;
     connect := connect plain_sdk;
     handleRequest := handleRequest plain_sdk;
     sse_sessionId := sse_sessionId plain_sdk;
     handlePostMessage := handlePostMessage plain_sdk;
     transport_close := λ h,
       if (h =? 0)%nat then Some (JsError "socket hang up") else None |}.

Definition three_sessions : Transports :=
  {| streamable := {["stream-1" := 2%nat]};
     sse := {["sse-a" := 0%nat; "sse-b" := 1%nat]};
     allocated := 3 |}.

(** [shouldCheckAuth] and [API_KEY] as the module reads them from
    [process.env]. *)
Definition config_of_env (env : gmap string string) : Config :=
  {| shouldCheckAuth := bool_decide (env !! "CHECK_AUTH" = Some "true");
     API_KEY := env !! "API_KEY" |}.

(** [maskedKey]: the first and the last four characters around three
    dots, or eight stars for a key of at most eight characters.
    [String.length] and [String.substring] are [length] and [substring]
    of JavaScript on keys of the ASCII range (see [ascii_only]). *)
Definition maskedKey (key : string) : string :=
  if (8 <? String.length key)%nat
  then String.substring 0 4 key +:+ "..."
       +:+ String.substring (String.length key - 4) 4 key
  else "********".

(** The authentication block run when the module is loaded: the line it
    logs, and whether loading goes on or throws.  [production] is
    [process.env.NODE_ENV === 'production']. *)
Definition startup (cfg : Config) (production : bool) : string * Result unit :=
  if shouldCheckAuth cfg && nonempty (API_KEY cfg) then
    (if production
     then "API authentication enabled with key: "
          +:+ maskedKey (default "" (API_KEY cfg))
     else "Using development API key: " +:+ default "" (API_KEY cfg),
     Ok tt)
  else if shouldCheckAuth cfg && negb (nonempty (API_KEY cfg)) then
    ("API authentication disabled",
     Throw (JsError "No API_KEY defined. Authentication is mandatory."))
  else ("API authentication disabled", Ok tt).

(** A request that carries the given session id in its header, and the
    credentials of [secured]. *)
Definition with_session (verb : string) (sid : string) (b : JsVal) : Request :=
  {| method := verb;
     headers := {["mcp-session-id" := sid; "authorization" := "Bearer s3cret"]};
     query_sessionId := None;
     body := b |}.

(** An SDK like [plain_sdk] whose stream transport closes on [DELETE],
    reporting the session id of the request. *)
Definition closing_sdk : Sdk :=
  {| isInitializeRequest := isInitializeRequest plain_sdk;
     connect := connect plain_sdk;
     handleRequest := λ h req,
       if String.eqb (method req) "DELETE"
       then {| callbacks := [Closed (sessionId req)]; failure := None;
               headersSent := true |}
       else handleRequest plain_sdk h req;
     sse_sessionId := sse_sessionId plain_sdk;
     handlePostMessage := handlePostMessage plain_sdk;
     transport_close := transport_close plain_sdk |}.

Definition one_stream_session : Transports :=
  {| streamable := {["stream-1" := 0%nat]}; sse := ∅; allocated := 1 |}.

End Gateway.

(** ** Configuration from the environment ([loadConfig]) *)

Module Configuration.
Import Js.

(** [process.env.NAME] when it is set to something non-empty, which is
    what [!value] and [value || fallback] test. *)
Definition given (env : gmap string string) (variable : string) : option string :=
  match env !! variable with
  | Some value => if String.eqb value "" then None else Some value
  | None => None
  end.

(** [process.env.NAME || fallback]. *)
Definition given_or (env : gmap string string) (variable fallback : string) : string :=
  default fallback (given env variable).

Section LoadConfig.
  (** The network id enumeration of the ledger library: its type, the
      member a name stands for when there is one (a non-empty string, so a
      truthy value), and the member [TestNet].  The enumeration is a plain
      object: [NetworkId[name]] for a name that is not a member's goes on
      to [Object.prototype] (see [member]). *)
  Variable NetworkId : Type.
  Variable NetworkId_named : string → option NetworkId.
  Variable TestNet : NetworkId.

Record Config : Type := {
  seed : string;
  networkId : Member NetworkId;
  walletBackupFolder : string;
  walletFilename : string;
  logLevel : string;
  useExternalProofServer : bool;
  proofServer : string;
  indexer : string;
  indexerWS : string;
  node : string
}.

Definition loadConfig (env : gmap string string) : Result Config :=
  match given env "SEED" with
  | None => Throw (JsError "SEED environment variable is required")
  | Some seed =>
      let foundNetworkId :=
        match given env "NETWORK_ID" with
        | Some configuredNetworkId =>
            member (NetworkId_named configuredNetworkId) configuredNetworkId
        | None => None
        end in
      let networkId := default (Own TestNet) foundNetworkId in
      let walletFilename := given_or env "WALLET_FILENAME" "midnight-wallet" in
      let logLevel := given_or env "LOG_LEVEL" "info" in
      let walletBackupFolder := given_or env "WALLET_BACKUP_FOLDER" "wallet-backups" in
      let useExternalProofServer :=
        bool_decide (env !! "USE_EXTERNAL_PROOF_SERVER" = Some "true") in
      match given env "PROOF_SERVER", given env "INDEXER",
            given env "INDEXER_WS", given env "MN_NODE" with
      | Some proofServer, Some indexer, Some indexerWS, Some mnNode =>
          Ok {| seed := seed; networkId := networkId;
                walletBackupFolder := walletBackupFolder;
                walletFilename := walletFilename; logLevel := logLevel;
                useExternalProofServer := useExternalProofServer;
                proofServer := proofServer; indexer := indexer;
                indexerWS := indexerWS; node := mnNode |}
      | _, _, _, _ =>
          Throw (JsError "Proof server, indexer, indexerWS, and node are required when USE_EXTERNAL_PROOF_SERVER is true")
      end
  end.
End LoadConfig.

(** A network enumeration with two members, and an environment that sets
    the five variables the loader insists on. *)
Inductive SampleNetwork : Type := SampleTestNet | SampleMainNet.

Definition sample_network_named (n : string) : option SampleNetwork :=
  if String.eqb n "TestNet" then Some SampleTestNet
  else if String.eqb n "MainNet" then Some SampleMainNet
  else None.

Definition minimal_env : gmap string string :=
  {["SEED" := "00ff"; "PROOF_SERVER" := "http://proof";
    "INDEXER" := "http://indexer"; "INDEXER_WS" := "ws://indexer";
    "MN_NODE" := "http://node"; "NETWORK_ID" := "Mainnet"]}.

(** The same environment with a network id that is the name of a member
    of [Object.prototype]. *)
Definition constructor_env : gmap string string :=
  <["NETWORK_ID" := "constructor"]> minimal_env.

End Configuration.

(** * Properties

    ** The DAO service *)

Module DaoServiceFacts.
Import Js DaoService.

Lemma obj_set_fresh entries k v :
  k ∉ entries.*1 → obj_set entries k v = entries ++ [(k, v)].
Proof.
  induction entries as [|[k' v'] rest IH]; simpl; [done|].
  intros Hk. apply not_elem_of_cons in Hk as [Hne Hrest].
  destruct (String.eqb_spec k' k) as [->|_]; [done|].
  by rewrite IH.
Qed.

Lemma filter_keys_subset (p : string * JsVal → bool) entries k :
  k ∈ (List.filter p entries).*1 → k ∈ entries.*1.
Proof.
  induction entries as [|[k' v'] rest IH]; simpl; [done|].
  destruct (p (k', v')); simpl.
  - intros [->|Hin]%elem_of_cons; [left|right; auto].
  - intros Hin. right. auto.
Qed.

Lemma NoDup_filter_keys (p : string * JsVal → bool) entries :
  NoDup entries.*1 → NoDup (List.filter p entries).*1.
Proof.
  induction entries as [|[k v] rest IH]; simpl; [done|].
  intros [Hfresh Hnd]%NoDup_cons. destruct (p (k, v)); simpl; [|auto].
  apply NoDup_cons. split; [|auto].
  intros Hin. by apply Hfresh, (filter_keys_subset p).
Qed.

Lemma fold_assign_fresh (f : JsVal → JsVal) entries acc :
  NoDup (acc.*1 ++ entries.*1) →
  fold_left (λ result kv, assign result kv.1 (f kv.2)) entries acc
  = acc ++ map (λ kv, (kv.1, f kv.2)) (List.filter assignable entries).
Proof.
  revert acc. induction entries as [|[k v] rest IH]; intros acc Hnd; simpl.
  - by rewrite app_nil_r.
  - simpl in Hnd. unfold assign, assignable at 1. cbn [fst snd].
    destruct (String.eqb k "__proto__"); cbn [negb].
    + apply IH. apply NoDup_app in Hnd as (Hacc & Hdisj & [_ Hrest]%NoDup_cons).
      apply NoDup_app. split; [done|]. split; [|done].
      intros x Hx Hin. apply (Hdisj x Hx). by right.
    + rewrite obj_set_fresh.
      * rewrite IH.
        -- simpl. by rewrite <- app_assoc.
        -- rewrite fmap_app. simpl. by rewrite <- app_assoc.
      * apply NoDup_app in Hnd as (_ & Hdisj & _).
        intros Hin. apply (Hdisj k Hin). left.
Qed.

(** On an object with distinct keys the loop of assignments rebuilds the
    entries one for one, except an entry under ["__proto__"]. *)
Lemma serializeBigInts_obj entries :
  NoDup entries.*1 →
  serializeBigInts (VObj entries)
  = VObj (map (λ kv, (kv.1, serializeBigInts kv.2)) (List.filter assignable entries)).
Proof.
  intros Hnd. simpl. f_equal.
  by rewrite (fold_assign_fresh serializeBigInts entries []).
Qed.

Lemma BigInt_roundtrip z : BigInt_parse (BigInt_toString z) = Some z.
Proof.
  unfold BigInt_parse, BigInt_toString.
  rewrite NilZero.isi.
  - simpl. by rewrite DecimalZ.of_to.
  - destruct z; simpl; try discriminate.
    intros [= H]. by apply DecimalPos.Unsigned.to_uint_nonnil in H.
  - destruct z; simpl; try discriminate.
    intros [= H]. by apply DecimalPos.Unsigned.to_uint_nonnil in H.
Qed.

(** Splits the hypotheses about the entry list [(k, x) :: l] of an object
    into those about [x] and those about [l]. *)
Ltac split_entry :=
  repeat match goal with
  | H : _ && _ = true |- _ => apply andb_prop in H as [? ?]
  | H : negb (String.eqb ?k "__proto__") = true |- _ =>
      apply negb_true_iff in H; try rewrite H in *
  end.

Lemma serializeBigInts_shape v :
  well_formed v = true → plain_keys v = true →
  same_shape_serialized v (serializeBigInts v).
Proof.
  induction v as [| |b|x|s|z|items IH|entries IH] using JsVal_deep_ind;
    intros Hwf Hpk; try (by apply sss_leaf); [apply sss_bigint| |].
  - simpl. apply sss_arr. simpl in Hwf, Hpk.
    induction IH as [|x l Hx _ IHl]; simpl in *; [constructor|].
    split_entry. constructor; auto.
  - simpl in Hwf, Hpk. apply andb_prop in Hwf as [Hnd Hwf].
    apply bool_decide_eq_true in Hnd.
    rewrite serializeBigInts_obj by done. apply sss_obj. clear Hnd.
    induction IH as [|[k x] l Hx _ IHl]; simpl in *; [constructor|].
    unfold assignable at 1. cbn [fst]. split_entry. cbn [negb map].
    constructor; auto.
Qed.

Lemma serializeBigInts_bigint_free v :
  well_formed v = true → bigint_free (serializeBigInts v) = true.
Proof.
  induction v as [| |b|x|s|z|items IH|entries IH] using JsVal_deep_ind;
    intros Hwf; try done.
  - simpl in *.
    induction IH as [|x l Hx _ IHl]; simpl in *; [done|].
    apply andb_prop in Hwf as [Hwx Hwl]. rewrite Hx, IHl; done.
  - simpl in Hwf. apply andb_prop in Hwf as [Hnd Hwf].
    apply bool_decide_eq_true in Hnd.
    rewrite serializeBigInts_obj by done. simpl. clear Hnd.
    induction IH as [|[k x] l Hx _ IHl]; simpl in *; [done|].
    apply andb_prop in Hwf as [Hwx Hwl].
    destruct (assignable (k, x)); simpl; [rewrite Hx, IHl; done|auto].
Qed.

Lemma serializeBigInts_numbers v :
  well_formed v = true → plain_keys v = true →
  numbers_of (serializeBigInts v) = numbers_of v.
Proof.
  induction v as [| |b|x|s|z|items IH|entries IH] using JsVal_deep_ind;
    intros Hwf Hpk; try done.
  - simpl in *.
    induction IH as [|x l Hx _ IHl]; simpl in *; [done|].
    split_entry. rewrite Hx, IHl; done.
  - simpl in Hwf, Hpk. apply andb_prop in Hwf as [Hnd Hwf].
    apply bool_decide_eq_true in Hnd.
    rewrite serializeBigInts_obj by done. simpl. clear Hnd.
    induction IH as [|[k x] l Hx _ IHl]; simpl in *; [done|].
    unfold assignable at 1. cbn [fst]. split_entry. cbn [negb map flat_map fst snd].
    rewrite Hx, IHl; done.
Qed.

(** A successful operation hands out the serialized answer of the contract
    and nothing else. *)
Lemma dao_operation_data {DaoConfig} (config : Result DaoConfig) call msg :
  success (dao_operation DaoConfig config call msg) = true →
  ∃ cfg raw, config = Ok cfg ∧ call cfg = Ok raw ∧
    data (dao_operation DaoConfig config call msg) = Some (serializeBigInts raw).
Proof.
  unfold dao_operation. destruct config as [cfg|e]; [|done].
  destruct (call cfg) as [raw|e] eqn:Hcall; [|done]. eauto.
Qed.


(** On a value whose objects have each key once and none named
    ["__proto__"], [serializeBigInts] returns a value of the same shape in
    which every bigint, at any depth of arrays and objects, has become the
    string of its decimal digits and every other leaf is unchanged: no
    bigint is left, the numbers of the result are exactly the numbers of
    the input (nothing was turned into a floating point number), the
    decimal string reads back as the same integer, and a DAO operation
    that succeeds returns the serialized answer of the contract as its
    data. *)
Lemma serializeBigInts_spec (v : JsVal) :
  well_formed v = true →
  plain_keys v = true →
  same_shape_serialized v (serializeBigInts v)
  ∧ bigint_free (serializeBigInts v) = true
  ∧ numbers_of (serializeBigInts v) = numbers_of v
  ∧ (∀ z, BigInt_parse (BigInt_toString z) = Some z)
  ∧ (∀ (DaoConfig : Type) (config : Result DaoConfig) call msg,
       success (dao_operation DaoConfig config call msg) = true →
       ∃ cfg raw, config = Ok cfg ∧ call cfg = Ok raw ∧
         data (dao_operation DaoConfig config call msg)
         = Some (serializeBigInts raw)).
Proof.
  intros Hwf Hpk. repeat split.
  - by apply serializeBigInts_shape.
  - by apply serializeBigInts_bigint_free.
  - by apply serializeBigInts_numbers.
  - apply BigInt_roundtrip.
  - intros DaoConfig config call msg. apply dao_operation_data.
Qed.

Example serializeBigInts_election_answer :
  serializeBigInts election_answer
  = VObj [("votes", VArr [VStr "12345678901234567890"; VStr "-7"]);
          ("turnout", VNum 0.5%float);
          ("open", VBool true);
          ("tally", VObj [("yes", VStr "0"); ("label", VStr "q1")])].
Proof. vm_compute. reflexivity. Qed.

(** *** Further properties of the serializer *)

Lemma serializeBigInts_keys entries :
  (map (λ kv : string * JsVal, (kv.1, serializeBigInts kv.2)) entries).*1 = entries.*1.
Proof. induction entries as [|[k v] rest IH]; [done|]. csimpl. f_equal. apply IH. Qed.

Lemma serializeBigInts_well_formed v :
  well_formed v = true → well_formed (serializeBigInts v) = true.
Proof.
  induction v as [| |b|x|s|z|items IH|entries IH] using JsVal_deep_ind;
    intros Hwf; try done.
  - simpl in *.
    induction IH as [|x l Hx _ IHl]; simpl in *; [done|].
    apply andb_prop in Hwf as [Hwx Hwl]. rewrite Hx, IHl; done.
  - simpl in Hwf. apply andb_prop in Hwf as [Hnd Hwf].
    apply bool_decide_eq_true in Hnd.
    rewrite serializeBigInts_obj by done. simpl.
    rewrite (serializeBigInts_keys (List.filter assignable entries)).
    apply andb_true_intro. split.
    { apply bool_decide_eq_true. by apply NoDup_filter_keys. }
    clear Hnd.
    induction IH as [|[k x] l Hx _ IHl]; simpl in *; [done|].
    apply andb_prop in Hwf as [Hwx Hwl].
    destruct (assignable (k, x)); simpl; [rewrite Hx, IHl; done|auto].
Qed.

(** What the serializer returns has no own property named ["__proto__"]. *)
Lemma serializeBigInts_plain_keys v :
  well_formed v = true → plain_keys (serializeBigInts v) = true.
Proof.
  induction v as [| |b|x|s|z|items IH|entries IH] using JsVal_deep_ind;
    intros Hwf; try done.
  - simpl in *.
    induction IH as [|x l Hx _ IHl]; simpl in *; [done|].
    apply andb_prop in Hwf as [Hwx Hwl]. rewrite Hx, IHl; done.
  - simpl in Hwf. apply andb_prop in Hwf as [Hnd Hwf].
    apply bool_decide_eq_true in Hnd.
    rewrite serializeBigInts_obj by done. simpl. clear Hnd.
    induction IH as [|[k x] l Hx _ IHl]; simpl in *; [done|].
    apply andb_prop in Hwf as [Hwx Hwl].
    unfold assignable at 1. cbn [fst].
    destruct (String.eqb k "__proto__") eqn:Hk; cbn [negb map forallb fst snd];
      [auto|]. rewrite Hk, Hx, IHl; done.
Qed.

Lemma serializeBigInts_fixed_point v :
  well_formed v = true → plain_keys v = true → bigint_free v = true →
  serializeBigInts v = v.
Proof.
  induction v as [| |b|x|s|z|items IH|entries IH] using JsVal_deep_ind;
    intros Hwf Hpk Hfree; try done.
  - simpl in *. f_equal.
    induction IH as [|x l Hx _ IHl]; simpl in *; [done|].
    split_entry. rewrite Hx, IHl; done.
  - simpl in Hwf, Hpk, Hfree. apply andb_prop in Hwf as [Hnd Hwf].
    apply bool_decide_eq_true in Hnd.
    rewrite serializeBigInts_obj by done. f_equal. clear Hnd.
    induction IH as [|[k x] l Hx _ IHl]; simpl in *; [done|].
    unfold assignable at 1. cbn [fst]. split_entry. cbn [negb map fst snd].
    rewrite Hx, IHl; done.
Qed.

(** A value that holds no bigint, and no own property named
    ["__proto__"], comes back as it went in. *)
Theorem serializeBigInts_leaves_bigint_free_alone v :
  well_formed v = true → plain_keys v = true → bigint_free v = true →
  serializeBigInts v = v.
Proof. apply serializeBigInts_fixed_point. Qed.

Lemma serializeBigInts_leaves_bigint_free_alone_witness :
  serializeBigInts (VObj [("txId", VStr "00ab"); ("blockHeight", VNum 12%float)])
  = VObj [("txId", VStr "00ab"); ("blockHeight", VNum 12%float)].
Proof.
  apply (serializeBigInts_leaves_bigint_free_alone
           (VObj [("txId", VStr "00ab"); ("blockHeight", VNum 12%float)]));
    vm_compute; reflexivity.
Defined.

(** Serializing twice is serializing once. *)
Theorem serializeBigInts_idempotent v :
  well_formed v = true →
  serializeBigInts (serializeBigInts v) = serializeBigInts v.
Proof.
  intros Hwf. apply serializeBigInts_fixed_point.
  - by apply serializeBigInts_well_formed.
  - by apply serializeBigInts_plain_keys.
  - by apply serializeBigInts_bigint_free.
Qed.

Lemma serializeBigInts_idempotent_witness :
  serializeBigInts (serializeBigInts election_answer)
  = serializeBigInts election_answer.
Proof. apply (serializeBigInts_idempotent election_answer). vm_compute. reflexivity. Defined.

(** *** [padBytes] *)

Lemma padBytes_padded (encode : string → list Byte.byte) (n : nat) (s : string) :
  (length (encode s) ≤ n)%nat →
  padBytes encode n s
  = Ok (encode s ++ replicate (n - length (encode s)) Byte.x00).
Proof.
  unfold padBytes. intros Hfit.
  destruct (Nat.ltb_spec n (length (encode s))) as [?|_]; [lia|].
  f_equal.
  replace (replicate n Byte.x00)
    with (replicate (length (encode s)) Byte.x00
          ++ replicate (n - length (encode s)) Byte.x00).
  - apply list_inserts_0_r. by rewrite length_replicate.
  - rewrite <- replicate_add. f_equal. lia.
Qed.

Lemma padBytes_too_long (encode : string → list Byte.byte) (n : nat) (s : string) :
  (n < length (encode s))%nat →
  padBytes encode n s = Throw (JsError "String too long for pad length").
Proof.
  unfold padBytes. intros Hlong.
  by destruct (Nat.ltb_spec n (length (encode s))) as [_|?]; [|lia].
Qed.

(** [padBytes] succeeds exactly when the encoded string fits, and then
    returns the bytes followed by zero bytes up to the asked length. *)
Theorem padBytes_fits (encode : string → list Byte.byte) (n : nat) (s : string) :
  ((length (encode s) ≤ n)%nat →
   padBytes encode n s
   = Ok (encode s ++ replicate (n - length (encode s)) Byte.x00))
  ∧ ((n < length (encode s))%nat →
     padBytes encode n s = Throw (JsError "String too long for pad length"))
  ∧ ∀ out, padBytes encode n s = Ok out → length out = n.
Proof.
  split; [apply padBytes_padded|split; [apply padBytes_too_long|]].
  intros out. unfold padBytes. destruct (n <? length (encode s))%nat; [done|].
  intros [= <-]. by rewrite length_inserts, length_replicate.
Qed.

Lemma padBytes_fits_witness :
  padBytes ascii_encode 8 "dao"
  = Ok (ascii_encode "dao" ++ replicate (8 - length (ascii_encode "dao")) Byte.x00).
Proof. apply (proj1 (padBytes_fits ascii_encode 8 "dao")). vm_compute. lia. Defined.

Lemma zero_free_prefix (a b : list Byte.byte) (n m : nat) :
  Byte.x00 ∉ a → Byte.x00 ∉ b →
  a ++ replicate n Byte.x00 = b ++ replicate m Byte.x00 → a = b.
Proof.
  revert b. induction a as [|x a IH]; intros [|y b] Ha Hb Heq; simpl in *.
  - done.
  - destruct n; simplify_eq/=. destruct Hb. left.
  - destruct m; simplify_eq/=. destruct Ha. left.
  - simplify_eq/=. f_equal. apply IH; [| |done].
    + intros ?. apply Ha. by right.
    + intros ?. apply Hb. by right.
Qed.

(** Padding loses nothing of a string without NUL characters: two such
    strings padded to the same bytes have the same encoding. *)
Theorem padBytes_injective (encode : string → list Byte.byte) (n : nat)
    (s1 s2 : string) out :
  Byte.x00 ∉ encode s1 → Byte.x00 ∉ encode s2 →
  padBytes encode n s1 = Ok out → padBytes encode n s2 = Ok out →
  encode s1 = encode s2.
Proof.
  intros H1 H2 Hp1 Hp2.
  destruct (le_lt_dec (length (encode s1)) n) as [Hle1|Hgt1];
    [|rewrite (padBytes_too_long encode n s1 Hgt1) in Hp1; done].
  destruct (le_lt_dec (length (encode s2)) n) as [Hle2|Hgt2];
    [|rewrite (padBytes_too_long encode n s2 Hgt2) in Hp2; done].
  rewrite (padBytes_padded encode n s1 Hle1) in Hp1.
  rewrite (padBytes_padded encode n s2 Hle2) in Hp2.
  injection Hp1 as <-. injection Hp2 as Heq.
  by eapply zero_free_prefix.
Qed.

Lemma padBytes_injective_witness :
  ascii_encode "dega_dao_vote" = ascii_encode "dega_dao_vote".
Proof.
  apply (padBytes_injective ascii_encode 32 "dega_dao_vote" "dega_dao_vote"
           (ascii_encode "dega_dao_vote" ++ replicate 19 Byte.x00)).
  - vm_compute. intros H.
    repeat (apply elem_of_cons in H as [H|H]; [discriminate H|]).
    by apply elem_of_nil in H.
  - vm_compute. intros H.
    repeat (apply elem_of_cons in H as [H|H]; [discriminate H|]).
    by apply elem_of_nil in H.
  - vm_compute. reflexivity.
  - vm_compute. reflexivity.
Defined.

End DaoServiceFacts.

(** ** Tool dispatch *)

Module ToolsFacts.
Import Js Tools.

Lemma all_ascii_complete c : c ∈ all_ascii.
Proof.
  unfold all_ascii. apply list_elem_of_fmap. exists (nat_of_ascii c). split.
  - by rewrite ascii_nat_embedding.
  - apply elem_of_seq. pose proof (nat_ascii_bounded c). lia.
Qed.

Lemma same_letter_lower c d :
  is_lower d = true → same_letter c d = Ascii.eqb (lower_ascii c) d.
Proof.
  intros Hd.
  assert (forallb (λ c, forallb (λ d,
            implb (is_lower d)
              (Bool.eqb (same_letter c d) (Ascii.eqb (lower_ascii c) d)))
            all_ascii) all_ascii = true) as Hall by (vm_compute; reflexivity).
  rewrite forallb_forall in Hall.
  specialize (Hall c (proj1 (list_elem_of_In _ _) (all_ascii_complete c))).
  rewrite forallb_forall in Hall.
  specialize (Hall d (proj1 (list_elem_of_In _ _) (all_ascii_complete d))).
  rewrite Hd in Hall. simpl in Hall. by apply Bool.eqb_prop in Hall.
Qed.

(** Against a word in lower case, comparing the lower-cased string is
    comparing up to case. *)
Lemma toLowerCase_same_ignoring_case s w :
  all_lower w = true →
  String.eqb (toLowerCase s) w = same_ignoring_case s w.
Proof.
  revert w. induction s as [|c s IH]; intros [|d w] Hw; simpl; try done.
  simpl in Hw. apply andb_prop in Hw as [Hd Hw].
  rewrite (same_letter_lower c d Hd), (IH w Hw). done.
Qed.

Lemma select_None cases toolName :
  toolName ∉ cases.*1 → select cases toolName = None.
Proof.
  induction cases as [|[l b] rest IH]; simpl; [done|].
  intros Hn. apply not_elem_of_cons in Hn as [Hne Hrest].
  destruct (String.eqb_spec l toolName); [congruence|auto].
Qed.

(** The labels of the [switch] are the names of the table and one more. *)
Lemma case_labels httpClient JSON_stringify toolName :
  toolName ∈ (wallet_cases httpClient JSON_stringify
              ++ dao_cases httpClient JSON_stringify).*1 →
  toolName = "getPendingTransactions" ∨ toolName ∈ name <$> ALL_TOOLS.
Proof.
  intros Hin. cbn in Hin.
  repeat (apply elem_of_cons in Hin as [->|Hin]);
    try (by apply elem_of_nil in Hin); try (by left); right;
    unfold ALL_TOOLS, WALLET_TOOLS, DAO_TOOLS; cbn;
    repeat first [apply list_elem_of_here | apply list_elem_of_further].
Qed.

(** A body that throws the parameter error before doing anything leaves
    the dispatch with that error, one log entry and no backend call. *)
Lemma rejected_before_backend (m : M JsVal) (toolName : string) :
  (∃ text, m = ([], Throw (McpError InvalidParams text))) →
  let r := try_catch m (λ error : Exn,
             ([Logged ("Error handling tool call for " +:+ toolName +:+ ":") error],
              Throw error)) in
  (∃ text, thrown r = Some (McpError InvalidParams text)) ∧ backend_calls r = [].
Proof. intros [text ->]. simpl. split; [by exists text|done]. Qed.

Lemma obj_get_absent entries k : k ∉ keys entries → obj_get entries k = None.
Proof.
  induction entries as [|[k' v] rest IH]; simpl; [done|].
  intros Hn. apply not_elem_of_cons in Hn as [Hne Hrest].
  destruct (String.eqb_spec k' k); [congruence|auto].
Qed.

(** C3 (as amended).  A tool name that no [case] of [handleToolCall]
    handles -- a name outside [ALL_TOOLS] other than
    ["getPendingTransactions"] -- is not ignored: the dispatch logs and
    throws an [McpError] whose code is [InvalidParams] and whose message is
    ["Unknown tool: "] followed by the name, and calls no backend. *)
Theorem unknown_tool_is_InvalidParams httpClient JSON_stringify toolName toolArgs :
  toolName ∉ name <$> ALL_TOOLS →
  toolName ≠ "getPendingTransactions" →
  handleToolCall httpClient JSON_stringify toolName toolArgs
  = ([Logged ("Error handling tool call for " +:+ toolName +:+ ":")
        (McpError InvalidParams ("Unknown tool: " +:+ toolName))],
     Throw (McpError InvalidParams ("Unknown tool: " +:+ toolName))).
Proof.
  intros Hout Hne. unfold handleToolCall, dispatch.
  rewrite select_None; [done|].
  by intros [?|?]%case_labels.
Qed.

Lemma unknown_tool_is_InvalidParams_witness :
  handleToolCall quiet_client quiet_stringify "frobnicate" (VObj [])
  = ([Logged ("Error handling tool call for " +:+ "frobnicate" +:+ ":")
        (McpError InvalidParams ("Unknown tool: " +:+ "frobnicate"))],
     Throw (McpError InvalidParams ("Unknown tool: " +:+ "frobnicate"))).
Proof.
  apply (unknown_tool_is_InvalidParams quiet_client quiet_stringify "frobnicate").
  - vm_compute. intros H. repeat (apply elem_of_cons in H as [H|H]; [discriminate H|]).
    by apply elem_of_nil in H.
  - discriminate.
Defined.

(** C3 (as stated) fails: the error of an unregistered name carries the
    same code as the error of a missing parameter, [InvalidParams]; the
    two differ in their message text only. *)
Lemma unknown_tool_code_not_distinct :
  thrown (handleToolCall quiet_client quiet_stringify "frobnicate" (VObj []))
    ≫= error_code = Some InvalidParams
  ∧ thrown (handleToolCall quiet_client quiet_stringify "send"
              (VObj [("destinationAddress", VStr "addr-X")]))
    ≫= error_code = Some InvalidParams.
Proof. split; reflexivity. Qed.

(** C6 (code defect).  A call that carries no argument object at all
    ([undefined], as when the client leaves [arguments] out) omits every
    required field of [send], yet the dispatch never reaches its test of
    the parameters: reading the first field throws a [TypeError], which is
    logged and thrown on where the [InvalidParams] error was due.  No
    backend call is made. *)
Theorem send_without_arguments_is_TypeError :
  handleToolCall quiet_client quiet_stringify "send" VUndefined
  = ([Logged "Error handling tool call for send:"
        (TypeError "Cannot destructure property 'destinationAddress' of 'toolArgs' as it is undefined.")],
     Throw (TypeError "Cannot destructure property 'destinationAddress' of 'toolArgs' as it is undefined."))
  ∧ thrown (handleToolCall quiet_client quiet_stringify "send" VUndefined)
      ≫= error_code = None
  ∧ backend_calls (handleToolCall quiet_client quiet_stringify "send" VUndefined) = [].
Proof. repeat split. Qed.

(** With an argument object the test is reached: a call of a registered
    tool whose argument object leaves out one of the tool's required
    fields throws an [McpError] with code [InvalidParams], and the
    dispatch has made no backend call by then (so nothing was executed and
    the wallet recorded no transaction). *)
Lemma missing_required_field_rejected
    httpClient JSON_stringify (tool : Tool) (field : string) entries :
  tool ∈ ALL_TOOLS →
  field ∈ required tool →
  field ∉ keys entries →
  let r := handleToolCall httpClient JSON_stringify (name tool) (VObj entries) in
  (∃ text, thrown r = Some (McpError InvalidParams text)) ∧ backend_calls r = [].
Proof.
  intros Ht Hf Hmiss%obj_get_absent.
  unfold ALL_TOOLS, WALLET_TOOLS, DAO_TOOLS in Ht. simpl in Ht.
  repeat (apply elem_of_cons in Ht as [->|Ht]); try (by apply elem_of_nil in Ht);
    simpl in Hf;
    repeat (apply elem_of_cons in Hf as [->|Hf]); try (by apply elem_of_nil in Hf).
  all: unfold handleToolCall, dispatch;
    cbn [select app wallet_cases dao_cases name String.eqb Ascii.eqb Bool.eqb].
  all: apply rejected_before_backend.
  all: unfold case_send, case_verifyTransaction, case_getTransactionStatus,
    case_getTokenBalance, case_registerInMarketplace, case_verifyUserInMarketplace,
    case_openDaoElection, case_contract_post, case_contract_get, case_castDaoVote,
    case_fundDaoTreasury, mbind, M_bind, bind, lift, destructure, arg, missing, throw.
  all: cbn [fst snd app]; rewrite Hmiss; cbn [default falsy truthy negb orb fst snd].
  all: repeat (destruct (falsy _); cbn [orb]); eauto.
Qed.

Lemma missing_required_field_rejected_witness :
  let r := handleToolCall quiet_client quiet_stringify "send"
             (VObj [("destinationAddress", VStr "addr-X")]) in
  (∃ text, thrown r = Some (McpError InvalidParams text)) ∧ backend_calls r = [].
Proof.
  apply (missing_required_field_rejected quiet_client quiet_stringify
           {| name := "send";
              properties := ["destinationAddress"; "amount"; "token"];
              required := ["destinationAddress"; "amount"] |}
           "amount" [("destinationAddress", VStr "addr-X")]).
  - do 3 apply list_elem_of_further. apply list_elem_of_here.
  - apply list_elem_of_further, list_elem_of_here.
  - intros H. apply elem_of_cons in H as [H|H]; [discriminate H|].
    by apply elem_of_nil in H.
Defined.

Lemma routes_native_spec token :
  routes_native token = true ↔ token_absent token ∨ token_names_native token.
Proof.
  unfold token_absent, token_names_native. split.
  - destruct token as [| |b|x|s|z|items|entries]; simpl; try done; auto.
    intros H. repeat apply orb_prop in H as [H|H].
    + apply String.eqb_eq in H as ->. auto.
    + right. exists s. auto.
    + right. exists s. auto.
    + right. exists s. auto.
  - intros [[->| [->| ->]] | (s & -> & H)]; try done. simpl.
    destruct H as [-> | [-> | ->]]; by rewrite ?orb_true_r.
Qed.

Lemma isNativeToken_optional token :
  optional_string token → isNativeToken token = Ok (routes_native token).
Proof.
  intros [->| [->| [s ->]]]; try done.
  unfold isNativeToken, names_native_token, call_toLowerCase, falsy, truthy,
    routes_native.
  rewrite !toLowerCase_same_ignoring_case by done.
  rewrite negb_involutive.
  by destruct (String.eqb s "").
Qed.

Lemma backend_calls_logged (m : M JsVal) text :
  backend_calls (try_catch m (λ error, ([Logged text error], Throw error)))
  = backend_calls m.
Proof.
  unfold backend_calls, try_catch. destruct m as [effects [a|e]]; simpl; [done|].
  rewrite omap_app. simpl. by rewrite app_nil_r.
Qed.

Lemma backend_calls_http httpClient JSON_stringify call :
  backend_calls (r ← http httpClient call; content JSON_stringify r) = [call].
Proof.
  unfold backend_calls, content, http, mbind, M_bind, bind, lift, mret, M_ret, ret.
  simpl. destruct (httpClient call) as [r|e]; simpl; [|done].
  by destruct (JSON_stringify r).
Qed.

(** Once the two required fields are there, [send] makes exactly one
    backend call, chosen by the token test. *)
Lemma case_send_calls httpClient JSON_stringify entries :
  truthy (arg entries "destinationAddress") = true →
  truthy (arg entries "amount") = true →
  optional_string (arg entries "token") →
  backend_calls (case_send httpClient JSON_stringify (VObj entries))
  = [if routes_native (arg entries "token")
     then native_send (arg entries "destinationAddress") (arg entries "amount")
     else shielded_send (arg entries "token")
            (arg entries "destinationAddress") (arg entries "amount")].
Proof.
  intros Hd Ha Ht.
  unfold case_send, mbind at 1 2 3 4, M_bind, bind, lift, destructure.
  cbn [fst snd app]. unfold falsy. rewrite Hd, Ha. cbn [negb orb].
  rewrite (isNativeToken_optional _ Ht). cbn [fst snd app].
  unfold backend_calls at 1. cbn [fst snd].
  destruct (routes_native (arg entries "token")).
  - apply (backend_calls_http httpClient JSON_stringify).
  - apply (backend_calls_http httpClient JSON_stringify).
Qed.

(** C10.  With both required fields given and [token] an optional string,
    [send] goes to the native endpoint, with the address and the amount,
    exactly when the token is not given (left out, [null] or empty) or is
    ["native"], ["tdust"] or ["dust"] up to the case of its letters; any
    other token goes to the shielded-token endpoint with the token name,
    the address and the amount.  The earlier revision of the file routes
    the same way. *)
Theorem send_routing httpClient JSON_stringify entries :
  truthy (arg entries "destinationAddress") = true →
  truthy (arg entries "amount") = true →
  optional_string (arg entries "token") →
  let destinationAddress := arg entries "destinationAddress" in
  let amount := arg entries "amount" in
  let token := arg entries "token" in
  let calls := backend_calls
                 (handleToolCall httpClient JSON_stringify "send" (VObj entries)) in
  (calls = [native_send destinationAddress amount]
     ↔ token_absent token ∨ token_names_native token)
  ∧ (¬ (token_absent token ∨ token_names_native token) →
     calls = [shielded_send token destinationAddress amount])
  ∧ backend_calls
      (handleToolCall_earlier httpClient JSON_stringify "send" (VObj entries))
    = calls.
Proof.
  intros Hd Ha Ht. cbv zeta.
  assert (backend_calls
            (handleToolCall httpClient JSON_stringify "send" (VObj entries))
          = backend_calls (case_send httpClient JSON_stringify (VObj entries)))
    as -> by apply backend_calls_logged.
  assert (backend_calls
            (handleToolCall_earlier httpClient JSON_stringify "send" (VObj entries))
          = backend_calls (case_send httpClient JSON_stringify (VObj entries)))
    as -> by apply backend_calls_logged.
  rewrite (case_send_calls _ _ _ Hd Ha Ht), <- routes_native_spec.
  destruct (routes_native (arg entries "token")); repeat split; done.
Qed.

Lemma send_routing_witness :
  let entries := [("destinationAddress", VStr "addr-X"); ("amount", VStr "5");
                  ("token", VStr "tDUST")] in
  let calls := backend_calls
                 (handleToolCall quiet_client quiet_stringify "send" (VObj entries)) in
  (calls = [native_send (VStr "addr-X") (VStr "5")]
     ↔ token_absent (VStr "tDUST") ∨ token_names_native (VStr "tDUST"))
  ∧ (¬ (token_absent (VStr "tDUST") ∨ token_names_native (VStr "tDUST")) →
     calls = [shielded_send (VStr "tDUST") (VStr "addr-X") (VStr "5")])
  ∧ backend_calls
      (handleToolCall_earlier quiet_client quiet_stringify "send" (VObj entries))
    = calls.
Proof.
  apply (send_routing quiet_client quiet_stringify
           [("destinationAddress", VStr "addr-X"); ("amount", VStr "5");
            ("token", VStr "tDUST")]).
  - reflexivity.
  - reflexivity.
  - right. right. by exists "tDUST".
Defined.

(** *** The shape of every dispatch *)

Lemma bind_lift_Ok {A B} (a : A) (k : A → M B) : (x ← lift (Ok a); k x) = k a.
Proof. unfold mbind, M_bind, bind, lift. simpl. by destruct (k a). Qed.

Lemma bind_lift_Throw {A B} (e : Exn) (k : A → M B) :
  (x ← lift (Throw e); k x) = ([], Throw e).
Proof. done. Qed.

Lemma single_call_lift httpClient JSON_stringify {A} (r : Result A) (k : A → M JsVal) :
  (∀ a, single_call httpClient JSON_stringify (k a)) →
  single_call httpClient JSON_stringify (x ← lift r; k x).
Proof.
  intros Hk. destruct r as [a|e].
  - rewrite bind_lift_Ok. apply Hk.
  - rewrite bind_lift_Throw. left. eauto.
Qed.

Lemma single_call_http httpClient JSON_stringify c :
  single_call httpClient JSON_stringify
    (r ← http httpClient c; content JSON_stringify r).
Proof. right. eauto. Qed.

Lemma single_call_missing httpClient JSON_stringify text :
  single_call httpClient JSON_stringify (missing text).
Proof. left. eexists. reflexivity. Qed.

(** Works through a [case] body: argument reads, the presence test, the
    token test, down to the throw or the backend call. *)
Ltac case_shape :=
  repeat first
    [ apply single_call_missing
    | apply single_call_http
    | apply single_call_lift; intros ?
    | match goal with
      | |- single_call _ _ (if ?b then _ else _) => destruct b
      end ].

Lemma cases_single_call httpClient JSON_stringify :
  Forall (λ lb, ∀ toolArgs, single_call httpClient JSON_stringify (lb.2 toolArgs))
    (wallet_cases httpClient JSON_stringify ++ dao_cases httpClient JSON_stringify).
Proof.
  unfold wallet_cases, dao_cases. cbn [app].
  repeat apply Forall_cons_2; try apply Forall_nil_2; intros toolArgs; cbn [snd];
    unfold simple_get, case_send, case_verifyTransaction, case_getTransactionStatus,
      case_getTokenBalance, case_registerInMarketplace,
      case_verifyUserInMarketplace, case_openDaoElection, case_contract_post,
      case_contract_get, case_castDaoVote, case_fundDaoTreasury;
    case_shape.
Qed.

Lemma select_Some cases toolName body :
  select cases toolName = Some body → (toolName, body) ∈ cases.
Proof.
  induction cases as [|[l b] rest IH]; simpl; [done|].
  destruct (String.eqb_spec l toolName) as [->|_].
  - intros [= ->]. left.
  - intros H. right. auto.
Qed.

(** The four ways a dispatch can go. *)
Lemma dispatch_outcomes httpClient JSON_stringify toolName toolArgs :
  let r := handleToolCall httpClient JSON_stringify toolName toolArgs in
  (∃ e, r = ([Logged (log_text toolName) e], Throw e))
  ∨ (∃ c e, httpClient c = Throw e
            ∧ r = ([Backend c; Logged (log_text toolName) e], Throw e))
  ∨ (∃ c answer e, httpClient c = Ok answer ∧ JSON_stringify answer = Throw e
                   ∧ r = ([Backend c; Logged (log_text toolName) e], Throw e))
  ∨ (∃ c answer text, httpClient c = Ok answer ∧ JSON_stringify answer = Ok text
                      ∧ r = ([Backend c], Ok (envelope text))).
Proof.
  cbv zeta. unfold handleToolCall, dispatch.
  destruct (select _ toolName) as [body|] eqn:Hsel.
  - apply select_Some in Hsel.
    pose proof (cases_single_call httpClient JSON_stringify) as Hall.
    rewrite Forall_forall in Hall.
    pose proof (Hall _ Hsel toolArgs) as Hshape. cbn [snd] in Hshape.
    destruct Hshape as [[e ->]|[c ->]]; simpl.
    { left. eauto. }
    right. unfold content, http, mbind, M_bind, bind, lift, try_catch. simpl.
    destruct (httpClient c) as [answer|e] eqn:Hc; simpl.
    + destruct (JSON_stringify answer) as [text|e] eqn:Hj; simpl.
      * right. right. eauto 10.
      * right. left. eauto 10.
    + left. eauto.
  - left. eauto.
Qed.

(** Whatever the tool and the arguments, a dispatch calls the backend at
    most once, and exactly once when it returns. *)
Theorem dispatch_calls_backend_at_most_once
    httpClient JSON_stringify toolName toolArgs :
  let r := handleToolCall httpClient JSON_stringify toolName toolArgs in
  (length (backend_calls r) ≤ 1)%nat
  ∧ (thrown r = None → length (backend_calls r) = 1%nat).
Proof.
  cbv zeta.
  destruct (dispatch_outcomes httpClient JSON_stringify toolName toolArgs)
    as [(e & ->)|[(c & e & _ & ->)|[(c & a & e & _ & _ & ->)|(c & a & t & _ & _ & ->)]]];
    (split; [simpl; lia|done]).
Qed.

Lemma dispatch_calls_backend_at_most_once_witness :
  length (backend_calls (handleToolCall balance_client quiet_stringify
                           "walletBalance" VUndefined)) = 1%nat.
Proof.
  apply (proj2 (dispatch_calls_backend_at_most_once balance_client quiet_stringify
                  "walletBalance" VUndefined)).
  reflexivity.
Defined.

(** No failure is swallowed and none is reported twice: a dispatch that
    throws has called [log] exactly once, last, with the error it then
    throws; a dispatch that returns has not called [log]. *)
Theorem dispatch_logs_what_it_throws httpClient JSON_stringify toolName toolArgs :
  let r := handleToolCall httpClient JSON_stringify toolName toolArgs in
  (∀ e, thrown r = Some e →
        ∃ before, r.1 = before ++ [Logged (log_text toolName) e] ∧ log_free before)
  ∧ (thrown r = None → log_free r.1).
Proof.
  cbv zeta. unfold log_free.
  destruct (dispatch_outcomes httpClient JSON_stringify toolName toolArgs)
    as [(e & ->)|[(c & e & _ & ->)|[(c & a & e & _ & _ & ->)|(c & a & t & _ & _ & ->)]]];
    simpl; (split; [intros e' [= <-] || intros e' [=] | intros [=] || intros _]).
  - exists []. split; [done|]. intros ?? H. by apply elem_of_nil in H.
  - exists [Backend c]. split; [done|]. intros ?? H.
    apply elem_of_cons in H as [H|H]; [done|]. by apply elem_of_nil in H.
  - exists [Backend c]. split; [done|]. intros ?? H.
    apply elem_of_cons in H as [H|H]; [done|]. by apply elem_of_nil in H.
  - intros ?? H. apply elem_of_cons in H as [H|H]; [done|]. by apply elem_of_nil in H.
Qed.

Lemma dispatch_logs_what_it_throws_witness :
  ∃ before,
    (handleToolCall refusing_client quiet_stringify "walletStatus" VUndefined).1
    = before ++ [Logged (log_text "walletStatus") (JsError "connect ECONNREFUSED")]
    ∧ log_free before.
Proof.
  apply (proj1 (dispatch_logs_what_it_throws refusing_client quiet_stringify
                  "walletStatus" VUndefined)).
  reflexivity.
Defined.

(** A dispatch that returns hands back the backend's answer, turned into
    text by [JSON.stringify] and wrapped in the content envelope, for the
    one call it made. *)
Theorem dispatch_returns_backend_answer
    httpClient JSON_stringify toolName toolArgs v :
  (handleToolCall httpClient JSON_stringify toolName toolArgs).2 = Ok v →
  ∃ c answer text,
    backend_calls (handleToolCall httpClient JSON_stringify toolName toolArgs) = [c]
    ∧ httpClient c = Ok answer
    ∧ JSON_stringify answer = Ok text
    ∧ v = envelope text.
Proof.
  destruct (dispatch_outcomes httpClient JSON_stringify toolName toolArgs)
    as [(e & ->)|[(c & e & _ & ->)|[(c & a & e & _ & _ & ->)|(c & a & t & Hc & Hj & ->)]]];
    simpl; intros [= <-]. eauto 10.
Qed.

Lemma dispatch_returns_backend_answer_witness :
  ∃ c answer text,
    backend_calls (handleToolCall balance_client quiet_stringify
                     "walletBalance" VUndefined) = [c]
    ∧ balance_client c = Ok answer
    ∧ quiet_stringify answer = Ok text
    ∧ envelope (VStr "null") = envelope text.
Proof.
  apply (dispatch_returns_backend_answer balance_client quiet_stringify
           "walletBalance" VUndefined (envelope (VStr "null"))).
  reflexivity.
Defined.

(** An error of the backend call, or of [JSON.stringify] on its answer,
    leaves the dispatch as it is: the same error is thrown, not wrapped. *)
Theorem dispatch_rethrows_backend_error
    httpClient JSON_stringify toolName toolArgs c e :
  backend_calls (handleToolCall httpClient JSON_stringify toolName toolArgs) = [c] →
  httpClient c = Throw e ∨ (∃ answer, httpClient c = Ok answer
                                      ∧ JSON_stringify answer = Throw e) →
  thrown (handleToolCall httpClient JSON_stringify toolName toolArgs) = Some e.
Proof.
  destruct (dispatch_outcomes httpClient JSON_stringify toolName toolArgs)
    as [(e' & ->)|[(c' & e' & Hc & ->)|[(c' & a & e' & Hc & Hj & ->)
                                       |(c' & a & t & Hc & Hj & ->)]]];
    unfold thrown; simpl; intros [= <-]; intros [He|(a' & Ha & He)];
    congruence.
Qed.

Lemma dispatch_rethrows_backend_error_witness :
  thrown (handleToolCall refusing_client quiet_stringify "getTransactions" VUndefined)
  = Some (JsError "connect ECONNREFUSED").
Proof.
  apply (dispatch_rethrows_backend_error refusing_client quiet_stringify
           "getTransactions" VUndefined (HttpGet (Path "/wallet/transactions"))).
  - reflexivity.
  - left. reflexivity.
Defined.

(** [getTokenBalance] with a non-empty token name asks for the wallet
    balance when the name is ["native"], ["tdust"] or ["dust"] up to the
    case of its letters, and for the balance of the token of that name,
    spelled as given, otherwise. *)
Theorem getTokenBalance_routing httpClient JSON_stringify entries (s : string) :
  arg entries "tokenName" = VStr s →
  s ≠ "" →
  backend_calls
    (handleToolCall httpClient JSON_stringify "getTokenBalance" (VObj entries))
  = [if native_word s then HttpGet (Path "/wallet/balance")
     else HttpGet (PathWith "/wallet/tokens/balance/" (VStr s))].
Proof.
  intros Harg Hs.
  assert (backend_calls
            (handleToolCall httpClient JSON_stringify "getTokenBalance" (VObj entries))
          = backend_calls
              (case_getTokenBalance httpClient JSON_stringify (VObj entries)))
    as -> by apply backend_calls_logged.
  unfold case_getTokenBalance, destructure. rewrite Harg, bind_lift_Ok.
  unfold falsy, truthy. apply String.eqb_neq in Hs. rewrite Hs. cbn [negb].
  unfold names_native_token, call_toLowerCase.
  rewrite !toLowerCase_same_ignoring_case by done. rewrite bind_lift_Ok.
  fold (native_word s).
  destruct (native_word s); apply (backend_calls_http httpClient JSON_stringify).
Qed.

Lemma getTokenBalance_routing_witness :
  backend_calls
    (handleToolCall quiet_client quiet_stringify "getTokenBalance"
       (VObj [("tokenName", VStr "MyToken")]))
  = [if native_word "MyToken" then HttpGet (Path "/wallet/balance")
     else HttpGet (PathWith "/wallet/tokens/balance/" (VStr "MyToken"))].
Proof.
  apply (getTokenBalance_routing quiet_client quiet_stringify
           [("tokenName", VStr "MyToken")] "MyToken"); [reflexivity|discriminate].
Defined.

(** A call without an argument object ([undefined] or [null]): a tool with
    required fields fails on reading the first of them, with a
    [TypeError] rather than the parameter error, before any backend call;
    a tool without required fields does what it does for any arguments. *)
Theorem dispatch_without_arguments
    httpClient JSON_stringify (tool : Tool) (toolArgs : JsVal) :
  tool ∈ ALL_TOOLS →
  toolArgs = VUndefined ∨ toolArgs = VNull →
  (required tool ≠ [] →
   ∃ text,
     handleToolCall httpClient JSON_stringify (name tool) toolArgs
     = ([Logged (log_text (name tool)) (TypeError text)], Throw (TypeError text)))
  ∧ (required tool = [] →
     ∀ others,
       handleToolCall httpClient JSON_stringify (name tool) toolArgs
       = handleToolCall httpClient JSON_stringify (name tool) others).
Proof.
  intros Ht Habsent.
  unfold ALL_TOOLS, WALLET_TOOLS, DAO_TOOLS in Ht. simpl in Ht.
  repeat (apply elem_of_cons in Ht as [->|Ht]); try (by apply elem_of_nil in Ht);
    (split; [intros Hreq; try done | intros Hreq; try done]);
    try (intros others; reflexivity);
    destruct Habsent as [->| ->]; eexists; reflexivity.
Qed.

Lemma dispatch_without_arguments_witness :
  ∃ text,
    handleToolCall quiet_client quiet_stringify "send" VUndefined
    = ([Logged (log_text "send") (TypeError text)], Throw (TypeError text)).
Proof.
  apply (proj1 (dispatch_without_arguments quiet_client quiet_stringify
                  {| name := "send";
                     properties := ["destinationAddress"; "amount"; "token"];
                     required := ["destinationAddress"; "amount"] |}
                  VUndefined
                  ltac:(do 3 apply list_elem_of_further; apply list_elem_of_here)
                  (or_introl eq_refl))).
  discriminate.
Defined.

End ToolsFacts.

(** ** The wallet facing server class *)

Module McpApiFacts.
Import Js McpApi.

(** C7.  [confirmTransactionHasBeenReceived]: with the wallet ready and the
    query answering, the result is the query's [exists] with the query's
    [syncedIndices], [totalIndices] and [isFullySynced] as sync status, so
    two answers that differ in [isFullySynced] are different values even
    when both say the transaction does not exist; with the wallet not
    ready it throws [WALLET_NOT_READY]; with the query throwing it throws
    [IDENTIFIER_VERIFICATION_FAILED], which is no answer at all. *)
Theorem confirmTransactionHasBeenReceived_spec wallet identifier :
  (∀ result,
     isReady wallet = true →
     hasReceivedTransactionByIdentifier wallet identifier = Ok result →
     ∃ answer,
       confirmTransactionHasBeenReceived wallet identifier = Ok answer
       ∧ tx_exists answer = wallet_exists result
       ∧ syncedIndices (syncStatus answer) = wallet_syncedIndices result
       ∧ totalIndices (syncStatus answer) = wallet_totalIndices result
       ∧ isFullySynced (syncStatus answer) = wallet_isFullySynced result)
  ∧ (∀ wallet' answer answer',
       confirmTransactionHasBeenReceived wallet identifier = Ok answer →
       confirmTransactionHasBeenReceived wallet' identifier = Ok answer' →
       isFullySynced (syncStatus answer) ≠ isFullySynced (syncStatus answer') →
       answer ≠ answer')
  ∧ (isReady wallet = false →
     confirmTransactionHasBeenReceived wallet identifier
     = Throw (MCPError WALLET_NOT_READY "Wallet is not ready"))
  ∧ (∀ error,
       isReady wallet = true →
       hasReceivedTransactionByIdentifier wallet identifier = Throw error →
       (∃ text,
          confirmTransactionHasBeenReceived wallet identifier
          = Throw (MCPError IDENTIFIER_VERIFICATION_FAILED text))
       ∧ ∀ answer, confirmTransactionHasBeenReceived wallet identifier ≠ Ok answer).
Proof.
  unfold confirmTransactionHasBeenReceived. split; [|split; [|split]].
  - intros result -> ->. simpl. eauto 10.
  - intros wallet' answer answer' _ _ Hne ->. done.
  - by intros ->.
  - intros error -> ->. simpl. split; [eauto|done].
Qed.

(** The scenario of the specification: an unknown identifier while the
    wallet is behind, and once it has caught up. *)
Lemma confirmTransactionHasBeenReceived_spec_witness :
  ∃ behind caught_up,
    confirmTransactionHasBeenReceived (wallet_without_tx 40 100 false) "unknown-id"
    = Ok behind
    ∧ confirmTransactionHasBeenReceived (wallet_without_tx 100 100 true) "unknown-id"
      = Ok caught_up
    ∧ tx_exists behind = false ∧ tx_exists caught_up = false
    ∧ behind ≠ caught_up.
Proof.
  eexists _, _. split; [reflexivity|]. split; [reflexivity|].
  split; [reflexivity|]. split; [reflexivity|].
  apply (proj1 (proj2 (confirmTransactionHasBeenReceived_spec
                         (wallet_without_tx 40 100 false) "unknown-id"))
           (wallet_without_tx 100 100 true)); [reflexivity|reflexivity|].
  simpl. discriminate.
Defined.

(** Of the five error types the class declares it throws three: no
    operation ever throws [INSUFFICIENT_FUNDS] or [TX_NOT_FOUND], so a
    transfer the wallet refuses for lack of funds is reported as
    [TX_SUBMISSION_FAILED] like any other refusal. *)
Theorem thrown_error_types wallet ops destinationAddress amount identifier e :
  getAddress ops = Throw e
  ∨ getBalance wallet ops = Throw e
  ∨ sendFunds wallet ops destinationAddress amount = Throw e
  ∨ confirmTransactionHasBeenReceived wallet identifier = Throw e →
  error_type e = Some WALLET_NOT_READY
  ∨ error_type e = Some TX_SUBMISSION_FAILED
  ∨ error_type e = Some IDENTIFIER_VERIFICATION_FAILED.
Proof.
  unfold getAddress, getBalance, sendFunds, confirmTransactionHasBeenReceived.
  intros [H|[H|[H|H]]]; repeat case_match; simplify_eq/=; auto.
Qed.

Lemma thrown_error_types_witness :
  error_type (MCPError TX_SUBMISSION_FAILED "Failed to submit transaction")
  = Some WALLET_NOT_READY
  ∨ error_type (MCPError TX_SUBMISSION_FAILED "Failed to submit transaction")
    = Some TX_SUBMISSION_FAILED
  ∨ error_type (MCPError TX_SUBMISSION_FAILED "Failed to submit transaction")
    = Some IDENTIFIER_VERIFICATION_FAILED.
Proof.
  apply (thrown_error_types (wallet_without_tx 1 1 true)
           (broken_operations "Insufficient funds") "addr-X" "5" "id").
  right. right. left. reflexivity.
Defined.

(** [getAddress], [getBalance] and [sendFunds] do not pass on what the
    wallet threw: two wallets that fail differently give the same error. *)
Theorem wallet_failures_are_not_told_apart wallet ops ops' destinationAddress amount :
  (∀ e e', wallet_getAddress ops = Throw e → wallet_getAddress ops' = Throw e' →
           getAddress ops = getAddress ops')
  ∧ (∀ e e', wallet_getBalance ops = Throw e → wallet_getBalance ops' = Throw e' →
             getBalance wallet ops = getBalance wallet ops')
  ∧ (∀ e e',
       wallet_sendFunds ops destinationAddress amount = Throw e →
       wallet_sendFunds ops' destinationAddress amount = Throw e' →
       sendFunds wallet ops destinationAddress amount
       = sendFunds wallet ops' destinationAddress amount).
Proof.
  unfold getAddress, getBalance, sendFunds.
  repeat split; intros e e' -> ->; by destruct (isReady wallet).
Qed.

Lemma wallet_failures_are_not_told_apart_witness :
  sendFunds (wallet_without_tx 1 1 true) (broken_operations "Insufficient funds")
    "addr-X" "5"
  = sendFunds (wallet_without_tx 1 1 true) (broken_operations "socket hang up")
      "addr-X" "5".
Proof.
  apply (proj2 (proj2 (wallet_failures_are_not_told_apart
                         (wallet_without_tx 1 1 true)
                         (broken_operations "Insufficient funds")
                         (broken_operations "socket hang up") "addr-X" "5"))
           (JsError "Insufficient funds") (JsError "socket hang up"));
    reflexivity.
Defined.

End McpApiFacts.

(** ** The HTTP gateway *)

Module GatewayFacts.
Import Js Gateway.

(** Closes a goal [_ → _ → turned_away st out] or [_ → _ → rejected st out]
    once [out] is a record whose response is an error answer. *)
Ltac answered_with_error :=
  intros _ _; repeat split; eexists; (split; [done|]); simpl; lia.

(** On the stream route the credential check comes first: a request that
    fails it gets the [Unauthorized] answer, and neither the registries
    nor the SDK are touched. *)
Lemma mcp_rejects_unauthorized cfg sdk st req :
  unauthorized cfg req = true →
  mcp_handler cfg sdk st req
  = {| state := st; events := []; response := Some unauthorized_response |}.
Proof. intros H. unfold mcp_handler. by rewrite H. Qed.

(** C1 (code defect).  With authentication switched on, a request without
    credentials is turned away on the stream route, but the push pair never
    looks at credentials: the same anonymous client opens a push channel,
    which registers a session, connects it to the server and is told so,
    and then posts a message that is handed to the session's transport. *)
Theorem push_pair_skips_credential_check :
  unauthorized secured (anonymous "GET" None VUndefined) = true
  ∧ mcp_handler secured plain_sdk no_sessions (anonymous "POST" None initialize_body)
    = {| state := no_sessions; events := [];
         response := Some unauthorized_response |}
  ∧ sse_handler plain_sdk no_sessions (anonymous "GET" None VUndefined)
    = {| state := {| streamable := ∅; sse := {["sse-1" := 0%nat]}; allocated := 1 |};
         events := [NewSse 0%nat; Connect 0%nat; ResWrite connected_comment];
         response := None |}
  ∧ messages_handler plain_sdk
      {| streamable := ∅; sse := {["sse-1" := 0%nat]}; allocated := 1 |}
      (anonymous "POST" (Some "sse-1") tool_call_body)
    = {| state := {| streamable := ∅; sse := {["sse-1" := 0%nat]}; allocated := 1 |};
         events := [HandlePostMessage 0%nat];
         response := None |}.
Proof. repeat split. Qed.

(** What the stream route writes itself never has a [data] member. *)
Lemma mcp_response_without_data cfg sdk st req r :
  response (mcp_handler cfg sdk st req) = Some r → response_data r = None.
Proof.
  unfold mcp_handler, session_request, process_request, call_handleRequest,
    not_a_function, unless_sent.
  repeat (case_match; simpl); intros [= <-]; done.
Qed.

(** C2 (code defect).  When handling a posted message throws, the
    [/messages] route answers 500 with the text of the exception in the
    [data] member of the error. *)
Theorem messages_error_carries_exception_text :
  response
    (messages_handler
       (failing_sdk (JsError "connect ECONNREFUSED 10.0.0.5:5432"))
       {| streamable := ∅; sse := {["sse-1" := 0%nat]}; allocated := 1 |}
       (anonymous "POST" (Some "sse-1") tool_call_body))
  = Some {| status := 500;
            payload := JsonRpcError (-32603) "Error processing message"
                         (Some "connect ECONNREFUSED 10.0.0.5:5432")
                         (VStr "call-1") |}.
Proof. reflexivity. Qed.

(** C5 (code defect).  The push registry is a plain object, so a [POST]
    on [/messages] whose session id was never opened but is the name of a
    member of [Object.prototype] finds that member where it looks for a
    transport: the route takes the branch of a known session, the call of
    [handlePostMessage] fails, and the answer is a 500 with the internal
    error code and the text of the exception, not the 400 of an unknown
    session.  No session is created and no call leaves the gateway. *)
Theorem prototype_name_taken_for_push_session :
  sse no_sessions !! "constructor" = None
  ∧ messages_handler plain_sdk no_sessions
      (anonymous "POST" (Some "constructor") tool_call_body)
    = {| state := no_sessions; events := [];
         response :=
           Some {| status := 500;
                   payload := JsonRpcError (-32603) "Error processing message"
                                (Some "transport.handlePostMessage is not a function")
                                (VStr "call-1") |} |}.
Proof. split; reflexivity. Qed.

(** A [POST] on [/messages] whose session id is not in the push registry
    -- never opened, or removed when its channel closed -- and is not
    the name of a member of [Object.prototype] is answered 400 with a
    JSON-RPC error naming the session id; the registries are as before (no
    session appears) and no call leaves the gateway, so no transport, tool
    or wallet code runs. *)
Lemma unknown_push_session_rejected sdk st req :
  sse st !! session_key req = None →
  inherited (session_key req) = false →
  messages_handler sdk st req
  = {| state := st; events := [];
       response :=
         Some {| status := 400;
                 payload := JsonRpcError (-32000)
                              ("No transport found for sessionId " +:+ session_key req)
                              None (id_or_null (body req)) |} |}
  ∧ rejected st (messages_handler sdk st req)
  ∧ ∀ st0, rejected (sse_closed st0 (session_key req))
             (messages_handler sdk (sse_closed st0 (session_key req)) req).
Proof.
  intros Hnone Hplain.
  assert (∀ st', sse st' !! session_key req = None →
                 rejected st' (messages_handler sdk st' req)) as Hrej.
  { intros st' Hnone'. unfold messages_handler, rejected, member.
    rewrite Hnone', Hplain. simpl.
    repeat split. eexists. split; [done|]. simpl. lia. }
  split; [|split].
  - unfold messages_handler, member. by rewrite Hnone, Hplain.
  - by apply Hrej.
  - intros st0. apply Hrej. simpl. apply lookup_delete_eq.
Qed.

(** What the read of the stream registry finds, against the registered
    transport. *)
Lemma stream_member_cases st req :
  match stream_member st req with
  | Some (Own h) =>
      existing_stream st req = Some h ∧ nonempty (sessionId req) = true
  | Some (Inherited name) =>
      existing_stream st req = None ∧ nonempty (sessionId req) = true
      ∧ name = default "" (sessionId req) ∧ inherited name = true
  | None =>
      existing_stream st req = None
      ∧ (nonempty (sessionId req) = true →
         inherited (default "" (sessionId req)) = false)
  end.
Proof.
  unfold stream_member, existing_stream, member.
  destruct (nonempty (sessionId req)); [|done].
  destruct (streamable st !! _); [done|].
  by destruct (inherited _) eqn:Hin.
Qed.

Lemma stream_member_own st req h :
  existing_stream st req = Some h → stream_member st req = Some (Own h).
Proof.
  unfold stream_member, existing_stream.
  destruct (nonempty (sessionId req)); [|done]. by intros ->.
Qed.

(** C4 (as amended).  The stream route constructs a new transport exactly
    for a request that passed the credential check, whose method is
    neither [GET] nor [DELETE], that carries no session id (no header, or
    an empty one) and whose body is an initialization request; the new
    transport is registered under the session id with which the SDK
    reports the session initialized.  Every other request whose session
    id is missing or not registered is answered with an error response,
    with the registries unchanged and no call into the SDK. *)
Theorem stream_session_creation cfg sdk st req :
  (creates_session (mcp_handler cfg sdk st req) = true
   ↔ unauthorized cfg req = false
     ∧ method req ≠ "GET" ∧ method req ≠ "DELETE"
     ∧ nonempty (sessionId req) = false
     ∧ isInitializeRequest sdk (body req) = true)
  ∧ (creates_session (mcp_handler cfg sdk st req) = true →
     ∀ newSessionId,
       failure (connect sdk (allocated st)) = None →
       read_progressToken (body req) = Ok tt →
       callbacks (handleRequest sdk (allocated st) req)
       = [SessionInitialized newSessionId] →
       streamable (state (mcp_handler cfg sdk st req))
       = <[newSessionId := allocated st]> (streamable st))
  ∧ (creates_session (mcp_handler cfg sdk st req) = false →
     existing_stream st req = None →
     turned_away st (mcp_handler cfg sdk st req)).
Proof.
  pose proof (stream_member_cases st req) as Hmem.
  unfold mcp_handler, creates_session, turned_away, session_request, process_request,
    call_handleRequest, not_a_function, unless_sent.
  destruct (unauthorized cfg req) eqn:Hauth; simpl.
  { split; [|split]; [split; [done|by intros [? _]] | done |].
    answered_with_error. }
  destruct (String.eqb_spec (method req) "GET") as [Hget|Hget]; simpl.
  { destruct (stream_member st req) as [[h|name]|] eqn:Hex; simpl.
    - split; [|split]; [split; [done|by intros (_ & ? & _)] | done |].
      intros _ Hnone. destruct Hmem as [Hsome _]. congruence.
    - split; [|split]; [split; [done|by intros (_ & ? & _)] | done |].
      answered_with_error.
    - split; [|split]; [split; [done|by intros (_ & ? & _)] | done |].
      answered_with_error. }
  destruct (String.eqb_spec (method req) "DELETE") as [Hdel|Hdel]; simpl.
  { destruct (stream_member st req) as [[h|name]|] eqn:Hex; simpl.
    - split; [|split]; [split; [done|by intros (_ & _ & ? & _)] | done |].
      intros _ Hnone. destruct Hmem as [Hsome _]. congruence.
    - split; [|split]; [split; [done|by intros (_ & _ & ? & _)] | done |].
      answered_with_error.
    - split; [|split]; [split; [done|by intros (_ & _ & ? & _)] | done |].
      answered_with_error. }
  destruct (stream_member st req) as [[h|name]|] eqn:Hex; simpl.
  { destruct Hmem as [Hsome Hne].
    destruct (read_progressToken (body req)); simpl;
      (split; [|split]; [split; [done|intros (_ & _ & _ & ? & _); congruence]
                        | done | intros _ ?; congruence]). }
  { destruct Hmem as (_ & Hne & _).
    destruct (read_progressToken (body req)); simpl;
      (split; [|split]; [split; [done|intros (_ & _ & _ & ? & _); congruence]
                        | done | answered_with_error]). }
  destruct (nonempty (sessionId req)) eqn:Hne; simpl.
  { split; [|split]; [split; [done|by intros (_ & _ & _ & ? & _)] | done |].
    answered_with_error. }
  destruct (isInitializeRequest sdk (body req)) eqn:Hinit; simpl.
  - destruct (failure (connect sdk (allocated st))) eqn:Hconn; simpl.
    + split; [|split]; [done | done | done].
    + destruct (read_progressToken (body req)) as [[]|e] eqn:Hprog; simpl.
      * split; [|split]; [done | | done].
        intros _ newSessionId _ _ ->. done.
      * split; [|split]; [done | done | done].
  - split; [|split]; [split; [done|by intros (_ & _ & _ & _ & ?)] | done |].
    answered_with_error.
Qed.

(** The first request of a client: initialization without a session id. *)
Lemma stream_session_creation_witness :
  creates_session (mcp_handler secured plain_sdk no_sessions
     {| method := "POST";
        headers := {["authorization" := "Bearer s3cret"]};
        query_sessionId := None;
        body := initialize_body |}) = true
  ∧ streamable (state (mcp_handler secured plain_sdk no_sessions
       {| method := "POST";
          headers := {["authorization" := "Bearer s3cret"]};
          query_sessionId := None;
          body := initialize_body |}))
    = <["stream-1" := 0%nat]> ∅.
Proof.
  pose proof (stream_session_creation secured plain_sdk no_sessions
     {| method := "POST";
        headers := {["authorization" := "Bearer s3cret"]};
        query_sessionId := None;
        body := initialize_body |}) as (Hiff & Hbind & _).
  assert (creates_session (mcp_handler secured plain_sdk no_sessions
     {| method := "POST";
        headers := {["authorization" := "Bearer s3cret"]};
        query_sessionId := None;
        body := initialize_body |}) = true) as Hcreates.
  { apply Hiff. repeat split; discriminate. }
  split; [exact Hcreates|].
  exact (Hbind Hcreates "stream-1" eq_refl eq_refl eq_refl).
Defined.

(** C4 (as stated) fails: a [DELETE] request that carries no session id
    and whose body is an initialization request creates no session; it is
    answered 400. *)
Lemma delete_with_initialize_body_creates_nothing :
  nonempty (sessionId (anonymous "DELETE" None initialize_body)) = false
  ∧ isInitializeRequest plain_sdk (body (anonymous "DELETE" None initialize_body))
    = true
  ∧ mcp_handler {| shouldCheckAuth := false; API_KEY := None |} plain_sdk no_sessions
      (anonymous "DELETE" None initialize_body)
    = {| state := no_sessions; events := [];
         response := Some invalid_session_response |}
  ∧ creates_session
      (mcp_handler {| shouldCheckAuth := false; API_KEY := None |} plain_sdk
         no_sessions (anonymous "DELETE" None initialize_body)) = false.
Proof. repeat split. Qed.

Lemma omap_agree {A B} (f g : A → option B) (l : list A) :
  (∀ x, x ∈ l → f x = g x) → omap f l = omap g l.
Proof.
  induction l as [|x l IH]; intros Hfg; [done|]. csimpl.
  rewrite (Hfg x) by left. rewrite IH; [done|].
  intros y Hy. apply Hfg. by right.
Qed.

(** One loop over distinct keys: a close is attempted, in order, on the
    transport of every key the registry holds, and the registry afterwards
    is the old one with the visited entries treated by [after_close]. *)
Lemma close_each_spec sdk sessionIds registry :
  NoDup sessionIds →
  (close_each sdk sessionIds registry).2
  = omap (λ k, Close <$> registry !! k) sessionIds
  ∧ ∀ k, (close_each sdk sessionIds registry).1 !! k
         = if decide (k ∈ sessionIds) then after_close sdk (registry !! k)
           else registry !! k.
Proof.
  revert registry. induction sessionIds as [|k0 rest IH]; intros registry Hnd.
  { split; [done|]. intros k.
    destruct (decide (k ∈ [])) as [Hin|_]; [by apply elem_of_nil in Hin|done]. }
  apply NoDup_cons in Hnd as [Hfresh Hnd]. cbn [close_each omap list_omap].
  destruct (registry !! k0) as [h|] eqn:Hk0.
  - set (registry' := match transport_close sdk h with
                      | None => delete k0 registry
                      | Some _ => registry
                      end).
    assert (∀ k, k ≠ k0 → registry' !! k = registry !! k) as Hother.
    { intros k Hne. unfold registry'. destruct (transport_close sdk h); [done|].
      by apply lookup_delete_ne. }
    destruct (IH registry' Hnd) as [Hev Hreg].
    destruct (close_each sdk rest registry') as [final later].
    cbn [fst snd fmap option_fmap option_map] in *. split.
    + rewrite Hev. f_equal. apply omap_agree.
      intros k Hk. rewrite Hother; [done|]. intros ->. done.
    + intros k. rewrite Hreg. destruct (decide (k = k0)) as [->|Hne].
      * destruct (decide (k0 ∈ rest)) as [?|_]; [done|].
        destruct (decide (k0 ∈ k0 :: rest)) as [_|Hn]; [|by destruct Hn; left].
        rewrite Hk0. unfold registry', after_close.
        destruct (transport_close sdk h); [done|]. apply lookup_delete_eq.
      * rewrite (Hother k Hne).
        destruct (decide (k ∈ rest)) as [Hin|Hnin];
          destruct (decide (k ∈ k0 :: rest)) as [Hin'|Hnin']; try done.
        -- destruct Hnin'. by right.
        -- by apply elem_of_cons in Hin' as [?|?].
  - destruct (IH registry Hnd) as [Hev Hreg]. split; [done|].
    intros k. rewrite Hreg. destruct (decide (k = k0)) as [->|Hne].
    + destruct (decide (k0 ∈ rest)) as [?|_]; [done|].
      destruct (decide (k0 ∈ k0 :: rest)) as [_|Hn]; [|by destruct Hn; left].
      by rewrite Hk0.
    + destruct (decide (k ∈ rest)) as [Hin|Hnin];
        destruct (decide (k ∈ k0 :: rest)) as [Hin'|Hnin']; try done.
      * destruct Hnin'. by right.
      * by apply elem_of_cons in Hin' as [?|?].
Qed.

(** The loop over the keys of the registry itself. *)
Lemma close_registry_spec sdk (registry : gmap string Handle) :
  let walked := close_each sdk (map_to_list registry).*1 registry in
  (∀ sid h, registry !! sid = Some h → Close h ∈ walked.2)
  ∧ (∀ ev, ev ∈ walked.2 → ∃ sid h, ev = Close h ∧ registry !! sid = Some h)
  ∧ (∀ sid, walked.1 !! sid = after_close sdk (registry !! sid)).
Proof.
  destruct (close_each_spec sdk (map_to_list registry).*1 registry
              (NoDup_fst_map_to_list registry)) as [Hev Hreg].
  cbv zeta. rewrite Hev. split; [|split].
  - intros sid h Hsid. apply list_elem_of_omap. exists sid. split.
    + apply list_elem_of_fmap. exists (sid, h). split; [done|].
      by apply elem_of_map_to_list.
    + by rewrite Hsid.
  - intros ev (sid & _ & Hsome)%list_elem_of_omap.
    destruct (registry !! sid) as [h|] eqn:Hsid; [|done].
    injection Hsome as <-. eauto.
  - intros sid. rewrite Hreg. case_decide as Hin; [done|].
    destruct (registry !! sid) as [h|] eqn:Hsid; [|done].
    exfalso. apply Hin. apply list_elem_of_fmap. exists (sid, h). split; [done|].
    by apply elem_of_map_to_list.
Qed.

(** C9.  The signal handler attempts to close the transport of every
    session of both registries: a close that throws is caught and the
    loop goes on, so every session's close is in the run whatever the
    others did.  A session whose transport closed is removed from its
    registry (one whose close threw stays).  The wallet server is closed
    after all these attempts, and the process exits after that. *)
Theorem shutdown_closes_every_session sdk midnightServer st :
  ∃ attempts,
    events (shutdown sdk midnightServer st) = attempts ++ [CloseBackend; Exit 0]
    ∧ (∀ sid h,
         sse st !! sid = Some h ∨ streamable st !! sid = Some h →
         Close h ∈ attempts)
    ∧ (∀ ev, ev ∈ attempts →
         ∃ sid h, ev = Close h
                  ∧ (sse st !! sid = Some h ∨ streamable st !! sid = Some h))
    ∧ (∀ sid,
         sse (state (shutdown sdk midnightServer st)) !! sid
         = after_close sdk (sse st !! sid)
         ∧ streamable (state (shutdown sdk midnightServer st)) !! sid
           = after_close sdk (streamable st !! sid)).
Proof.
  unfold shutdown.
  pose proof (close_registry_spec sdk (sse st)) as (Hs1 & Hs2 & Hs3).
  pose proof (close_registry_spec sdk (streamable st)) as (Ht1 & Ht2 & Ht3).
  cbv zeta in *.
  destruct (close_each sdk (map_to_list (sse st)).*1 (sse st)) as [sse' ev1].
  destruct (close_each sdk (map_to_list (streamable st)).*1 (streamable st))
    as [streamable' ev2].
  simpl in *. exists (ev1 ++ ev2). split; [|split; [|split]].
  - unfold McpApi.close. destruct (McpApi.wallet_close midnightServer);
      by rewrite <- app_assoc.
  - intros sid h [H|H]; apply elem_of_app; [left; eauto|right; eauto].
  - intros ev [H|H]%elem_of_app.
    + destruct (Hs2 ev H) as (sid & h & -> & ?). eauto 6.
    + destruct (Ht2 ev H) as (sid & h & -> & ?). eauto 6.
  - intros sid. split; [apply Hs3|apply Ht3].
Qed.

Example shutdown_three_sessions :
  ∃ order,
    events (shutdown stubborn_sdk (McpApi.wallet_without_tx 1 1 true) three_sessions)
    = order ++ [Close 2%nat; CloseBackend; Exit 0]
    ∧ order ≡ₚ [Close 0%nat; Close 1%nat]
    ∧ sse (state (shutdown stubborn_sdk (McpApi.wallet_without_tx 1 1 true)
                    three_sessions))
      = {["sse-a" := 0%nat]}
    ∧ streamable (state (shutdown stubborn_sdk (McpApi.wallet_without_tx 1 1 true)
                           three_sessions))
      = ∅.
Proof.
  exists [Close 0%nat; Close 1%nat]. repeat split; by vm_compute.
Qed.

(** *** Start-up and the credential check *)

(** Once the module has loaded, the stream route lets a request through
    exactly when authentication is off or the request's authorization
    header is ["Bearer "] followed by the configured, non-empty key: with
    authentication on there is always a key to compare with. *)
Theorem started_gateway_checks_the_key cfg production req :
  (startup cfg production).2 = Ok tt →
  (unauthorized cfg req = false
   ↔ shouldCheckAuth cfg = false
     ∨ ∃ key, API_KEY cfg = Some key ∧ key ≠ ""
              ∧ authHeader req = Some ("Bearer " +:+ key)).
Proof.
  unfold startup, unauthorized, bearer, nonempty.
  destruct (shouldCheckAuth cfg); simpl; [|intros _; split; auto].
  destruct (API_KEY cfg) as [key|]; simpl; [|done].
  destruct (String.eqb_spec key "") as [->|Hkey]; simpl; [done|].
  intros _. rewrite negb_false_iff, bool_decide_eq_true. split.
  - intros Hh. right. exists key. auto.
  - intros [?|(key' & [= <-] & _ & Hh)]; done.
Qed.

Lemma started_gateway_checks_the_key_witness :
  unauthorized secured (anonymous "POST" None initialize_body) = false
  ↔ shouldCheckAuth secured = false
    ∨ ∃ key, API_KEY secured = Some key ∧ key ≠ ""
             ∧ authHeader (anonymous "POST" None initialize_body)
               = Some ("Bearer " +:+ key).
Proof.
  apply (started_gateway_checks_the_key secured true
           (anonymous "POST" None initialize_body)).
  reflexivity.
Defined.

Lemma substring_whole (s : string) : String.substring 0 (String.length s) s = s.
Proof. induction s as [|c s IH]; simpl; [done|]. by rewrite IH. Qed.

Lemma substring_prefix (a r : string) :
  String.substring 0 (String.length a) (a +:+ r) = a.
Proof.
  induction a as [|c a IH]; simpl; [by destruct r|]. by rewrite IH.
Qed.

Lemma substring_past_prefix (a r : string) (n : nat) :
  String.substring (String.length a) n (a +:+ r) = String.substring 0 n r.
Proof. induction a as [|c a IH]; simpl; [done|]. apply IH. Qed.

Lemma length_app_string (a b : string) :
  String.length (a +:+ b) = (String.length a + String.length b)%nat.
Proof. induction a as [|c a IH]; simpl; [done|]. by rewrite IH. Qed.

Lemma app_string_cons (x : ascii) (a b : string) :
  String x a +:+ b = String x (a +:+ b).
Proof. reflexivity. Qed.

Lemma app_string_assoc (a b c : string) : (a +:+ b) +:+ c = a +:+ b +:+ c.
Proof.
  induction a as [|x a IH]; [done|]. rewrite !app_string_cons. f_equal. apply IH.
Qed.

(** In production the start-up line shows the first four and the last
    four characters of a key longer than eight and nothing of what is
    between them (for a key of the ASCII range, where characters are
    counted as JavaScript counts them). *)
Theorem production_log_shows_key_ends_only (first middle last : string) :
  ascii_only (first +:+ middle +:+ last) = true →
  String.length first = 4%nat →
  String.length last = 4%nat →
  middle ≠ "" →
  (startup {| shouldCheckAuth := true;
              API_KEY := Some (first +:+ middle +:+ last) |} true).1
  = "API authentication enabled with key: " +:+ first +:+ "..." +:+ last.
Proof.
  intros _ Hf Hl Hm. unfold startup, nonempty, maskedKey. cbn [shouldCheckAuth API_KEY].
  assert (String.length (first +:+ middle +:+ last)
          = (8 + String.length middle)%nat) as Hlen.
  { rewrite !length_app_string. lia. }
  assert (0 < String.length middle)%nat as Hpos.
  { destruct middle; [done|simpl; lia]. }
  destruct (String.eqb_spec (first +:+ middle +:+ last) "") as [Heq|_].
  { rewrite Heq in Hlen. simpl in Hlen. lia. }
  cbn [andb negb fst default from_option id]. unfold id. rewrite Hlen.
  destruct (Nat.ltb_spec 8 (8 + String.length middle)) as [_|?]; [|lia].
  do 3 f_equal.
  - rewrite <- Hf. apply substring_prefix.
  - f_equal.
    replace (8 + String.length middle - 4)%nat
      with (String.length (first +:+ middle)) by (rewrite length_app_string; lia).
    rewrite <- app_string_assoc, substring_past_prefix, <- Hl.
    apply substring_whole.
Qed.

Lemma production_log_shows_key_ends_only_witness :
  (startup {| shouldCheckAuth := true;
              API_KEY := Some ("abcd" +:+ "-secret-part-" +:+ "wxyz") |} true).1
  = "API authentication enabled with key: " +:+ "abcd" +:+ "..." +:+ "wxyz".
Proof.
  apply (production_log_shows_key_ends_only "abcd" "-secret-part-" "wxyz");
    [reflexivity|reflexivity|reflexivity|discriminate].
Defined.

(** *** Sessions across requests *)

Lemma run_callbacks_frame h st cbs :
  sse (run_callbacks h st cbs) = sse st
  ∧ allocated (run_callbacks h st cbs) = allocated st.
Proof.
  unfold run_callbacks. revert st.
  induction cbs as [|cb cbs IH]; intros st; simpl; [done|].
  destruct (IH (run_callback h st cb)) as [-> ->].
  destruct cb as [sid|sid]; simpl; [done|]. by destruct (nonempty sid).
Qed.

(** The transport kinds do not touch each other's registry: the stream
    route leaves the push registry as it is, opening a push channel leaves
    the stream registry as it is, and posting a message changes neither. *)
Theorem registries_are_separate cfg sdk st req :
  sse (state (mcp_handler cfg sdk st req)) = sse st
  ∧ streamable (state (sse_handler sdk st req)) = streamable st
  ∧ state (messages_handler sdk st req) = st.
Proof.
  split; [|split].
  - unfold mcp_handler, session_request, process_request, call_handleRequest.
    repeat (case_match; simpl); simplify_eq/=; try done;
      by rewrite (proj1 (run_callbacks_frame _ _ _)).
  - unfold sse_handler. by repeat (case_match; simpl).
  - unfold messages_handler, call_handlePostMessage.
    by repeat (case_match; simpl).
Qed.

(** The registry after a request that created a session which the SDK
    then reported initialized. *)
Lemma new_session_registered cfg sdk st req (sid : string) :
  creates_session (mcp_handler cfg sdk st req) = true →
  failure (connect sdk (allocated st)) = None →
  read_progressToken (body req) = Ok tt →
  callbacks (handleRequest sdk (allocated st) req) = [SessionInitialized sid] →
  streamable (state (mcp_handler cfg sdk st req))
  = <[sid := allocated st]> (streamable st).
Proof.
  intros Hcreates Hconn Hprog Hcb. revert Hcreates.
  unfold mcp_handler, creates_session, session_request, process_request,
    call_handleRequest.
  repeat (case_match; simpl); simplify_eq/=; try done.
  all: intros Hcreates; simplify_eq/=.
  all: by rewrite Hcb.
Qed.

(** Initialization and reuse: after the request that created a session,
    a later request that carries the session id the SDK reported is handed
    to the transport created then, and creates nothing. *)
Theorem initialized_session_is_reused cfg sdk sdk' st req req' (sid : string) :
  creates_session (mcp_handler cfg sdk st req) = true →
  failure (connect sdk (allocated st)) = None →
  read_progressToken (body req) = Ok tt →
  callbacks (handleRequest sdk (allocated st) req) = [SessionInitialized sid] →
  sid ≠ "" →
  sessionId req' = Some sid →
  unauthorized cfg req' = false →
  method req' ≠ "GET" → method req' ≠ "DELETE" →
  read_progressToken (body req') = Ok tt →
  events (mcp_handler cfg sdk' (state (mcp_handler cfg sdk st req)) req')
  = [HandleRequest (allocated st)].
Proof.
  intros Hcreates Hconn Hprog Hcb Hsid Hreq' Hauth' Hget Hdel Hprog'.
  assert (existing_stream (state (mcp_handler cfg sdk st req)) req'
          = Some (allocated st)) as Hex.
  { unfold existing_stream, nonempty. rewrite Hreq'.
    apply String.eqb_neq in Hsid. rewrite Hsid. simpl.
    rewrite (new_session_registered cfg sdk st req sid Hcreates Hconn Hprog Hcb).
    apply lookup_insert_eq. }
  apply stream_member_own in Hex.
  unfold mcp_handler at 1. rewrite Hauth'.
  apply String.eqb_neq in Hget. apply String.eqb_neq in Hdel.
  rewrite Hget, Hdel, Hex. simpl.
  unfold process_request, call_handleRequest. by rewrite Hprog'.
Qed.

Lemma initialized_session_is_reused_witness :
  events (mcp_handler secured plain_sdk
            (state (mcp_handler secured plain_sdk no_sessions
                      {| method := "POST";
                         headers := {["authorization" := "Bearer s3cret"]};
                         query_sessionId := None;
                         body := initialize_body |}))
            (with_session "POST" "stream-1" tool_call_body))
  = [HandleRequest 0%nat].
Proof.
  apply (initialized_session_is_reused secured plain_sdk plain_sdk no_sessions
           {| method := "POST";
              headers := {["authorization" := "Bearer s3cret"]};
              query_sessionId := None;
              body := initialize_body |}
           (with_session "POST" "stream-1" tool_call_body) "stream-1");
    try reflexivity; discriminate.
Defined.

(** Termination: when the transport of a session closes while its
    [DELETE] request is handled, the session is gone from the registry and
    the other sessions stay.  Any later request with that session id
    reaches no transport and is answered with an error: a client error,
    unless the id is the name of a member of [Object.prototype], which the
    registry read then finds. *)
Theorem closed_session_is_forgotten cfg sdk sdk' st req req' h :
  method req = "DELETE" →
  unauthorized cfg req = false →
  existing_stream st req = Some h →
  callbacks (handleRequest sdk h req) = [Closed (sessionId req)] →
  sessionId req' = sessionId req →
  turned_away (state (mcp_handler cfg sdk st req))
    (mcp_handler cfg sdk' (state (mcp_handler cfg sdk st req)) req')
  ∧ (inherited (default "" (sessionId req)) = false →
     rejected (state (mcp_handler cfg sdk st req))
       (mcp_handler cfg sdk' (state (mcp_handler cfg sdk st req)) req'))
  ∧ ∀ other, Some other ≠ sessionId req →
      streamable (state (mcp_handler cfg sdk st req)) !! other
      = streamable st !! other.
Proof.
  intros Hm Hauth Hex Hcb Hsame.
  assert (nonempty (sessionId req) = true) as Hne.
  { revert Hex. unfold existing_stream. by destruct (nonempty (sessionId req)). }
  assert (state (mcp_handler cfg sdk st req)
          = with_streamable st (delete (default "" (sessionId req)) (streamable st)))
    as ->.
  { unfold mcp_handler. rewrite Hauth, Hm, (stream_member_own _ _ _ Hex). simpl.
    unfold run_callbacks. rewrite Hcb. simpl. by rewrite Hne. }
  set (st' := with_streamable st (delete (default "" (sessionId req)) (streamable st))).
  assert (stream_member st' req'
          = if inherited (default "" (sessionId req))
            then Some (Inherited (default "" (sessionId req))) else None) as Hgone.
  { unfold stream_member, member. rewrite Hsame, Hne. simpl.
    by rewrite lookup_delete_eq. }
  assert (nonempty (sessionId req') = true) as Hne' by (by rewrite Hsame).
  split; [|split].
  - unfold mcp_handler, turned_away, session_request, process_request,
      call_handleRequest, not_a_function, unless_sent.
    rewrite Hgone, Hne'.
    repeat (case_match; simpl); simplify_eq/=;
      repeat split; eexists; (split; [done|]); simpl; lia.
  - intros Hplain. rewrite Hplain in Hgone.
    unfold mcp_handler, rejected. rewrite Hgone, Hne'.
    repeat (case_match; simpl); repeat split; eexists; (split; [done|]); simpl; lia.
  - intros other Hother. simpl. apply lookup_delete_ne.
    destruct (sessionId req) as [sid|]; [|done]. simpl. congruence.
Qed.

Lemma closed_session_is_forgotten_witness :
  rejected
    (state (mcp_handler secured closing_sdk one_stream_session
              (with_session "DELETE" "stream-1" VUndefined)))
    (mcp_handler secured plain_sdk
       (state (mcp_handler secured closing_sdk one_stream_session
                 (with_session "DELETE" "stream-1" VUndefined)))
       (with_session "POST" "stream-1" tool_call_body)).
Proof.
  apply (proj1 (proj2 (closed_session_is_forgotten secured closing_sdk plain_sdk
                         one_stream_session
                         (with_session "DELETE" "stream-1" VUndefined)
                         (with_session "POST" "stream-1" tool_call_body) 0%nat
                         eq_refl eq_refl eq_refl eq_refl eq_refl))).
  reflexivity.
Defined.

(** Open, then post: while the push channel just opened is open (the
    connection succeeded, or failed after the headers were out) a message
    posted with its session id reaches its transport.  When the route
    answered the failed connection itself, that answer closed the channel:
    the session is out of the registry again and a message posted with its
    id reaches no transport.  The sessions under other ids are as they
    were in either case. *)
Theorem opened_channel_receives_posts sdk sdk' st req req' :
  session_key req' = sse_sessionId sdk (allocated st) →
  (response (sse_handler sdk st req) = None →
   events (messages_handler sdk' (state (sse_handler sdk st req)) req')
   = [HandlePostMessage (allocated st)])
  ∧ (response (sse_handler sdk st req) ≠ None →
     sse (state (sse_handler sdk st req)) !! session_key req' = None
     ∧ events (messages_handler sdk' (state (sse_handler sdk st req)) req') = [])
  ∧ ∀ other, other ≠ sse_sessionId sdk (allocated st) →
      sse (state (sse_handler sdk st req)) !! other = sse st !! other.
Proof.
  intros Hkey. unfold sse_handler, messages_handler, call_handlePostMessage, member.
  rewrite Hkey.
  destruct (failure (connect sdk (allocated st))) as [e|]; simpl;
    [destruct (headersSent (connect sdk (allocated st))); simpl|].
  - rewrite lookup_insert_eq. split; [done|split; [done|]].
    intros other Hne. by apply lookup_insert_ne.
  - rewrite lookup_delete_eq. split; [done|split].
    + intros _. split; [done|]. by destruct (inherited _).
    + intros other Hne. rewrite lookup_delete_ne by done. by apply lookup_insert_ne.
  - rewrite lookup_insert_eq. split; [done|split; [done|]].
    intros other Hne. by apply lookup_insert_ne.
Qed.

Lemma opened_channel_receives_posts_witness :
  events (messages_handler plain_sdk
            (state (sse_handler plain_sdk no_sessions
                      (anonymous "GET" None VUndefined)))
            (anonymous "POST" (Some "sse-1") tool_call_body))
  = [HandlePostMessage 0%nat].
Proof.
  apply (proj1 (opened_channel_receives_posts plain_sdk plain_sdk no_sessions
                  (anonymous "GET" None VUndefined)
                  (anonymous "POST" (Some "sse-1") tool_call_body) eq_refl)).
  reflexivity.
Defined.



(** The request id echoed by [/messages]: every answer the route sends
    itself carries the [id] of the body when that is truthy, and [null]
    when the body has no [id] or a falsy one (so a request id of [0] or
    of the empty string comes back as [null]). *)
Theorem echoed_id_is_truthy_or_null sdk st req r :
  response (messages_handler sdk st req) = Some r →
  (∀ entries v, body req = VObj entries → obj_get entries "id" = Some v →
                truthy v = true → response_id r = Some v)
  ∧ ((∀ entries v, body req = VObj entries → obj_get entries "id" = Some v →
                   truthy v = false) →
     response_id r = Some VNull).
Proof.
  intros Hr.
  assert (response_id r = Some (id_or_null (body req))) as ->.
  { revert Hr. unfold messages_handler, call_handlePostMessage, unless_sent.
    repeat (case_match; simpl); intros [= <-]; done. }
  unfold id_or_null. split.
  - intros entries v -> -> ->. done.
  - intros Hfalsy. destruct (body req) as [| | | | | | |entries]; try done.
    destruct (obj_get entries "id") as [v|] eqn:Hid; [|done].
    by rewrite (Hfalsy entries v eq_refl Hid).
Qed.

Lemma echoed_id_is_truthy_or_null_witness :
  response_id
    {| status := 400;
       payload := JsonRpcError (-32000) "No transport found for sessionId never-opened"
                    None (VStr "call-1") |}
  = Some (VStr "call-1")
  ∧ response_id
      {| status := 400;
         payload := JsonRpcError (-32000)
                      "No transport found for sessionId never-opened" None VNull |}
    = Some VNull.
Proof.
  split.
  - apply (proj1 (echoed_id_is_truthy_or_null plain_sdk no_sessions
                    (anonymous "POST" (Some "never-opened") tool_call_body) _ eq_refl)
             _ (VStr "call-1") eq_refl eq_refl eq_refl).
  - apply (proj2 (echoed_id_is_truthy_or_null plain_sdk no_sessions
                    (anonymous "POST" (Some "never-opened")
                       (VObj [("id", VNum 0%float)])) _ eq_refl)).
    intros entries v [= <-] [= <-]. reflexivity.
Defined.

(** *** Shutdown, once more *)

Lemma close_attempts_of_registry sdk (registry : gmap string Handle) :
  (close_each sdk (map_to_list registry).*1 registry).2
  = Close <$> (map_to_list registry).*2.
Proof.
  destruct (close_each_spec sdk (map_to_list registry).*1 registry
              (NoDup_fst_map_to_list registry)) as [-> _].
  assert (Forall (λ kv, registry !! kv.1 = Some kv.2) (map_to_list registry)) as Hall.
  { apply Forall_forall. intros [k v] Hin. by apply elem_of_map_to_list. }
  induction Hall as [|[k v] l Hkv _ IH]; [done|].
  csimpl. simpl in Hkv. rewrite Hkv. csimpl. by rewrite IH.
Qed.

(** Each session's transport is closed once: the run of the signal
    handler is one close per entry of the push registry, one per entry of
    the stream registry, then the wallet server, then the exit.  When every
    close succeeds both registries end empty; with no session at all the
    handler goes straight to the wallet server. *)
Theorem shutdown_closes_each_transport_once sdk midnightServer st :
  events (shutdown sdk midnightServer st)
  = (Close <$> (map_to_list (sse st)).*2)
    ++ (Close <$> (map_to_list (streamable st)).*2)
    ++ [CloseBackend; Exit 0]
  ∧ ((∀ h, transport_close sdk h = None) →
     sse (state (shutdown sdk midnightServer st)) = ∅
     ∧ streamable (state (shutdown sdk midnightServer st)) = ∅)
  ∧ (sse st = ∅ → streamable st = ∅ →
     events (shutdown sdk midnightServer st) = [CloseBackend; Exit 0]).
Proof.
  assert (events (shutdown sdk midnightServer st)
          = (Close <$> (map_to_list (sse st)).*2)
            ++ (Close <$> (map_to_list (streamable st)).*2)
            ++ [CloseBackend; Exit 0]) as Hev.
  { unfold shutdown.
    pose proof (close_attempts_of_registry sdk (sse st)) as H1.
    pose proof (close_attempts_of_registry sdk (streamable st)) as H2.
    destruct (close_each sdk (map_to_list (sse st)).*1 (sse st)) as [sse' ev1].
    destruct (close_each sdk (map_to_list (streamable st)).*1 (streamable st))
      as [streamable' ev2].
    simpl in *. rewrite H1, H2. unfold McpApi.close.
    by destruct (McpApi.wallet_close midnightServer). }
  split; [exact Hev|split].
  - intros Hok. unfold shutdown.
    pose proof (close_registry_spec sdk (sse st)) as (_ & _ & Hs).
    pose proof (close_registry_spec sdk (streamable st)) as (_ & _ & Ht).
    cbv zeta in *.
    destruct (close_each sdk (map_to_list (sse st)).*1 (sse st)) as [sse' ev1].
    destruct (close_each sdk (map_to_list (streamable st)).*1 (streamable st))
      as [streamable' ev2].
    simpl in *. split; apply map_empty; intros sid.
    + rewrite Hs. unfold after_close. destruct (sse st !! sid); [|done].
      by rewrite Hok.
    + rewrite Ht. unfold after_close. destruct (streamable st !! sid); [|done].
      by rewrite Hok.
  - intros Hs Ht. rewrite Hev, Hs, Ht. by rewrite map_to_list_empty.
Qed.

Lemma shutdown_closes_each_transport_once_witness :
  events (shutdown plain_sdk (McpApi.wallet_without_tx 1 1 true) no_sessions)
  = [CloseBackend; Exit 0].
Proof.
  apply (proj2 (proj2 (shutdown_closes_each_transport_once plain_sdk
                         (McpApi.wallet_without_tx 1 1 true) no_sessions)));
    reflexivity.
Defined.

End GatewayFacts.

(** ** Configuration *)

Module ConfigurationFacts.
Import Js Configuration.

Lemma given_nonempty env variable value :
  given env variable = Some value ↔ env !! variable = Some value ∧ value ≠ "".
Proof.
  unfold given. destruct (env !! variable) as [v|]; [|by split; [|intros [? _]]].
  destruct (String.eqb_spec v "") as [->|Hne].
  - split; [done|]. by intros [[= <-] ?].
  - split; [by intros [= <-]|]. by intros [[= <-] _].
Qed.

(** The configuration loads exactly when [SEED], [PROOF_SERVER],
    [INDEXER], [INDEXER_WS] and [MN_NODE] are all set to something
    non-empty -- whatever [USE_EXTERNAL_PROOF_SERVER] says -- and a missing
    [SEED] is the error reported first. *)
Theorem loadConfig_needs_five_variables
    (NetworkId : Type) (named : string → option NetworkId) (TestNet : NetworkId)
    (env : gmap string string) :
  ((∃ config, loadConfig NetworkId named TestNet env = Ok config)
   ↔ is_Some (given env "SEED") ∧ is_Some (given env "PROOF_SERVER")
     ∧ is_Some (given env "INDEXER") ∧ is_Some (given env "INDEXER_WS")
     ∧ is_Some (given env "MN_NODE"))
  ∧ (given env "SEED" = None →
     loadConfig NetworkId named TestNet env
     = Throw (JsError "SEED environment variable is required"))
  ∧ ∀ flag,
      (∃ config, loadConfig NetworkId named TestNet
                   (<["USE_EXTERNAL_PROOF_SERVER" := flag]> env) = Ok config)
      ↔ (∃ config, loadConfig NetworkId named TestNet env = Ok config).
Proof.
  assert (∀ env',
    (∃ config, loadConfig NetworkId named TestNet env' = Ok config)
    ↔ is_Some (given env' "SEED") ∧ is_Some (given env' "PROOF_SERVER")
      ∧ is_Some (given env' "INDEXER") ∧ is_Some (given env' "INDEXER_WS")
      ∧ is_Some (given env' "MN_NODE")) as Hiff.
  { intros env'. unfold loadConfig.
    destruct (given env' "SEED"), (given env' "PROOF_SERVER"),
      (given env' "INDEXER"), (given env' "INDEXER_WS"), (given env' "MN_NODE");
      (split; [intros [config Hc]; try done; by repeat split
              |intros (H1 & H2 & H3 & H4 & H5)]);
      try (by apply is_Some_None in H1); try (by apply is_Some_None in H2);
      try (by apply is_Some_None in H3); try (by apply is_Some_None in H4);
      try (by apply is_Some_None in H5); eauto. }
  split; [apply Hiff|split].
  - intros Hseed. unfold loadConfig. by rewrite Hseed.
  - intros flag. rewrite !Hiff.
    assert (∀ v, v ≠ "USE_EXTERNAL_PROOF_SERVER" →
                 given (<["USE_EXTERNAL_PROOF_SERVER" := flag]> env) v = given env v)
      as Hsame.
    { intros v Hv. unfold given. by rewrite lookup_insert_ne. }
    by rewrite !Hsame.
Qed.

(** The network id never makes loading fail, and nothing checks it
    against the enumeration: [NETWORK_ID] gives the member of that name,
    or, when it is the name of a member of [Object.prototype], that
    inherited member; a [NETWORK_ID] that is not set, empty, or neither
    gives [TestNet]. *)
Theorem loadConfig_network_falls_back_to_TestNet
    (NetworkId : Type) (named : string → option NetworkId) (TestNet : NetworkId)
    (env : gmap string string) config :
  loadConfig NetworkId named TestNet env = Ok config →
  (networkId NetworkId config = Own TestNet
   ∨ (∃ n m, env !! "NETWORK_ID" = Some n ∧ named n = Some m
             ∧ networkId NetworkId config = Own m)
   ∨ (∃ n, env !! "NETWORK_ID" = Some n ∧ named n = None ∧ inherited n = true
           ∧ networkId NetworkId config = Inherited n))
  ∧ ((∀ n, env !! "NETWORK_ID" = Some n → named n = None ∧ inherited n = false) →
     networkId NetworkId config = Own TestNet)
  ∧ (∀ n, env !! "NETWORK_ID" = Some n → named n = None → inherited n = true →
          networkId NetworkId config = Inherited n).
Proof.
  unfold loadConfig. intros Hload.
  destruct (given env "SEED"); [|done].
  destruct (given env "PROOF_SERVER"), (given env "INDEXER"),
    (given env "INDEXER_WS"), (given env "MN_NODE"); try done.
  injection Hload as <-. simpl. unfold given, member.
  destruct (env !! "NETWORK_ID") as [n|] eqn:Hn;
    [|by split; [left|split; [|intros ? [=]]]].
  destruct (String.eqb_spec n "") as [->|Hne]; simpl.
  { split; [by left|split; [done|]]. by intros ? [= <-] _ ?. }
  destruct (named n) as [m|] eqn:Hnamed; simpl.
  - split; [right; left; eauto|split].
    + intros Hnone. destruct (Hnone n eq_refl). congruence.
    + intros ? [= <-] ?. congruence.
  - destruct (inherited n) eqn:Hin; simpl.
    + split; [right; right; eauto|split].
      * intros Hnone. destruct (Hnone n eq_refl). congruence.
      * by intros ? [= <-] _ _.
    + split; [by left|split; [done|]]. intros ? [= <-] _ ?. congruence.
Qed.

Lemma loadConfig_network_falls_back_to_TestNet_witness :
  (∃ config,
     loadConfig SampleNetwork sample_network_named SampleTestNet minimal_env
     = Ok config
     ∧ networkId SampleNetwork config = Own SampleTestNet)
  ∧ (∃ config,
       loadConfig SampleNetwork sample_network_named SampleTestNet constructor_env
       = Ok config
       ∧ networkId SampleNetwork config = Inherited "constructor").
Proof.
  split; eexists; (split; [reflexivity|]).
  - apply (proj1 (proj2 (loadConfig_network_falls_back_to_TestNet SampleNetwork
                           sample_network_named SampleTestNet minimal_env _ eq_refl))).
    intros n Hn. vm_compute in Hn. injection Hn as <-. split; reflexivity.
  - apply (proj2 (proj2 (loadConfig_network_falls_back_to_TestNet SampleNetwork
                           sample_network_named SampleTestNet constructor_env _
                           eq_refl)));
      reflexivity.
Defined.

End ConfigurationFacts.
